(** * Flaky-test pipeline: extractor (coleta_dados.py) and classifier
      (interpret2.py)

    A shallow embedding of the two scripts and the properties of their
    record extraction and cross-environment classification.

    Modelling conventions.
    - A Python [str] is a [string]; a character stands for the code point
      with the same number (0..255).  [lower], [strip] and the ordering
      used by [sorted] follow Python on those code points.
    - A parsed JSON document is a [json] tree; a [dict] is its list of
      (key, value) items in insertion order, with pairwise distinct keys.
    - An uncaught Python exception is the [Raised] outcome of [run].
    - [print] calls are kept as a list of structured messages where a
      property talks about what is reported. *)

From stdpp Require Import gmap strings list sorting.
From Stdlib Require Import ZArith Ascii.
From Stdlib Require OrderedTypeEx.

(** ** Python strings *)

Module PyStr.

(** [c.lower()] for one character (code points below 256). *)
Definition lower_char (c : ascii) : ascii :=
  let n := N_of_ascii c in
  if ((65 <=? n) && (n <=? 90))%N then ascii_of_N (n + 32)
  else if ((192 <=? n) && (n <=? 222) && negb (n =? 215))%N
       then ascii_of_N (n + 32)
  else c.

(** [s.lower()] *)
Fixpoint lower (s : string) : string :=
  match s with
  | EmptyString => EmptyString
  | String c s' => String (lower_char c) (lower s')
  end.

(** [c.isspace()] *)
Definition is_space (c : ascii) : bool :=
  let n := N_of_ascii c in
  (((9 <=? n) && (n <=? 13)) || ((28 <=? n) && (n <=? 32))
   || (n =? 133) || (n =? 160))%N.

(** [s.lstrip()] *)
Fixpoint lstrip (s : string) : string :=
  match s with
  | EmptyString => EmptyString
  | String c s' => if is_space c then lstrip s' else s
  end.

(** [s.rstrip()] *)
Fixpoint rstrip (s : string) : string :=
  match s with
  | EmptyString => EmptyString
  | String c s' =>
      match rstrip s' with
      | EmptyString => if is_space c then EmptyString else String c EmptyString
      | r => String c r
      end
  end.

(** [s.strip()] *)
Definition strip (s : string) : string := rstrip (lstrip s).

(** [s.split(sep)] for a one-character separator: the current field is
    accumulated until the separator closes it. *)
Fixpoint split_on (sep : ascii) (s : string) : list string :=
  match s with
  | EmptyString => [EmptyString]
  | String c s' =>
      if Ascii.eqb c sep then EmptyString :: split_on sep s'
      else match split_on sep s' with
           | [] => [String c EmptyString]
           | f :: fs => String c f :: fs
           end
  end.

(** [sep.join(fields)] *)
Fixpoint join (sep : string) (fields : list string) : string :=
  match fields with
  | [] => EmptyString
  | [f] => f
  | f :: fs => f +:+ sep +:+ join sep fs
  end.

(** [sub in s] *)
Fixpoint str_in (sub s : string) : bool :=
  String.prefix sub s ||
  match s with
  | EmptyString => false
  | String _ s' => str_in sub s'
  end.

(** [s] has [sub] as a contiguous substring. *)
Definition Substring (sub s : string) : Prop :=
  ∃ a b, s = a +:+ sub +:+ b.

(** A string made of whitespace only, and strings that begin or end
    with a whitespace character. *)
Fixpoint all_space (s : string) : bool :=
  match s with
  | EmptyString => true
  | String c s' => is_space c && all_space s'
  end.

Definition starts_space (s : string) : bool :=
  match s with
  | EmptyString => false
  | String c _ => is_space c
  end.

Fixpoint ends_space (s : string) : bool :=
  match s with
  | EmptyString => false
  | String c EmptyString => is_space c
  | String _ s' => ends_space s'
  end.

(** The character [c] does not occur in [s]. *)
Fixpoint free_of (c : ascii) (s : string) : bool :=
  match s with
  | EmptyString => true
  | String x s' => negb (Ascii.eqb x c) && free_of c s'
  end.

(** [sub] occurs in [s] when case is ignored ([sub in s.lower()]). *)
Definition contains_ci (sub s : string) : Prop := Substring sub (lower s).

(** [s.endswith(suffix)]: some tail of [s] is [suffix]. *)
Fixpoint endswith (s suffix : string) : bool :=
  String.eqb s suffix ||
  match s with
  | EmptyString => false
  | String _ s' => endswith s' suffix
  end.

(** [os.path.join(a, b)] of posixpath. *)
Definition path_join (a b : string) : string :=
  if String.prefix "/" b then b
  else if String.eqb a EmptyString || endswith a "/" then a +:+ b
  else a +:+ "/" +:+ b.

(** The order used by [sorted] on strings. *)
Definition str_le (a b : string) : Prop := String.leb a b = true.

#[global] Instance str_le_dec : RelDecision str_le :=
  λ a b, decide (String.leb a b = true).

(** [sorted(list(s))] for a set of strings. *)
Definition sorted (l : list string) : list string := merge_sort str_le l.

End PyStr.

(** ** Outcomes of a call that may raise *)

Inductive run (A : Type) : Type :=
| Done (a : A)
| Raised (exn : string).
Arguments Done {A} a.
Arguments Raised {A} exn.

#[global] Instance run_ret : MRet run := λ A a, Done a.

#[global] Instance run_bind : MBind run := λ A B k m,
  match m with
  | Done a => k a
  | Raised e => Raised e
  end.

(** ** Parsed JSON values, as [json.load] returns them *)

#[local] Unset Elimination Schemes.
Inductive json : Type :=
| JNull
| JBool (b : bool)
| JNum (z : Z)
| JStr (s : string)
| JArr (items : list json)
| JObj (fields : list (string * json)).
#[local] Set Elimination Schemes.

Module Py.

(** Truth value of an object in [if x:]. *)
Definition truthy (v : json) : bool :=
  match v with
  | JNull => false
  | JBool b => b
  | JNum z => negb (z =? 0)%Z
  | JStr s => negb (String.eqb s EmptyString)
  | JArr items => match items with [] => false | _ => true end
  | JObj fields => match fields with [] => false | _ => true end
  end.

(** Lookup of a key among the items of a dict. *)
Fixpoint assoc (k : string) (fields : list (string * json)) : option json :=
  match fields with
  | [] => None
  | (k', v) :: rest => if String.eqb k k' then Some v else assoc k rest
  end.

(** [o.get(k, default)]; only a dict has the method. *)
Definition get (o : json) (k : string) (dflt : json) : run json :=
  match o with
  | JObj fields => Done (default dflt (assoc k fields))
  | _ => Raised "AttributeError"
  end.

(** Single characters of a string, as iteration over a [str] yields. *)
Fixpoint chars (s : string) : list json :=
  match s with
  | EmptyString => []
  | String c s' => JStr (String c EmptyString) :: chars s'
  end.

(** The items a [for x in v:] loop visits. *)
Definition iter (v : json) : run (list json) :=
  match v with
  | JArr items => Done items
  | JObj fields => Done (map (λ kv, JStr kv.1) fields)
  | JStr s => Done (chars s)
  | _ => Raised "TypeError"
  end.

(** [v == "s"] for a string literal. *)
Definition eq_str (v : json) (s : string) : bool :=
  match v with
  | JStr s' => String.eqb s' s
  | _ => false
  end.

End Py.

(** ** The extractor: coleta_dados.py *)

Module Coleta.
Import PyStr.

(** [detect_environment(name)] *)
Definition detect_environment (name : string) : string :=
  let name := lower name in
  if str_in "mac" name then "mac"
  else if str_in "linux" name || str_in "ubuntu" name then "linux"
  else if str_in "windows" name || str_in "win" name then "windows"
  else "unknown".

(** [get_project_info_from_csv(csv_path)], on the rows [csv.reader]
    yields for the file. *)
Definition get_project_info_from_csv (lines : list (list string))
  : option string * option string :=
  if length lines <? 2 then (None, None)
  else
    let second_line := nth 1 lines [] in
    let line_str := join "," second_line in
    let project_name := strip (hd "" (split_on "," line_str)) in
    let environment := strip (List.last (split_on "," line_str) "") in
    (Some project_name, Some environment).

(** One row of final_all.csv, as the dict handed to [csv.DictWriter]. *)
Record row : Type := Row {
  project : string;
  test_name : json;
  outcome : json;
  lineno : json;
  environment : string
}.

Definition stages : list string := ["setup"; "call"; "teardown"].

(** The row built from a populated stage (body of [if stage_data:]). *)
Definition stage_row (project environment : string)
    (test nodeid stage_data : json) : run (list row) :=
  outcome ← Py.get stage_data "outcome" JNull;
  crash ← Py.get stage_data "crash" (JObj []);
  test_lineno ← Py.get test "lineno" JNull;
  lineno ← Py.get crash "lineno" test_lineno;
  mret [ {| project := project; test_name := nodeid; outcome := outcome;
            lineno := lineno; environment := environment |} ].

(** [for stage in stages: ... break]: the rows appended for one test. *)
Fixpoint scan_stages (project environment : string) (test nodeid : json)
    (todo : list string) : run (list row) :=
  match todo with
  | [] => mret []
  | stage :: rest =>
      stage_data ← Py.get test stage JNull;
      if Py.truthy stage_data
      then stage_row project environment test nodeid stage_data
      else scan_stages project environment test nodeid rest
  end.

(** The stage the specification selects for a test with the given items:
    the first of setup, call, teardown whose data is present and
    non-empty. *)
Definition spec_first_populated (fields : list (string * json)) : option json :=
  let data stage := default JNull (Py.assoc stage fields) in
  if Py.truthy (data "setup") then Some (data "setup")
  else if Py.truthy (data "call") then Some (data "call")
  else if Py.truthy (data "teardown") then Some (data "teardown")
  else None.

(** Body of [for test in data.get("tests", [])]. *)
Definition process_test (project environment : string) (test : json)
  : run (list row) :=
  nodeid ← Py.get test "nodeid" JNull;
  scan_stages project environment test nodeid stages.

Fixpoint process_tests (project environment : string) (tests : list json)
    (rows : list row) : run (list row) :=
  match tests with
  | [] => mret rows
  | test :: rest =>
      new ← process_test project environment test;
      process_tests project environment rest (rows ++ new)
  end.

(** Body of [for collector in data.get("collectors", [])]. *)
Definition process_collector (project environment : string)
    (collector : json) : run (list row) :=
  outcome ← Py.get collector "outcome" JNull;
  if Py.eq_str outcome "failed" then
    nodeid ← Py.get collector "nodeid" (JStr "<unknown>");
    mret [ {| project := project; test_name := nodeid;
              outcome := JStr "collection_error"; lineno := JNull;
              environment := environment |} ]
  else mret [].

Fixpoint process_collectors (project environment : string)
    (collectors : list json) (rows : list row) : run (list row) :=
  match collectors with
  | [] => mret rows
  | collector :: rest =>
      new ← process_collector project environment collector;
      process_collectors project environment rest (rows ++ new)
  end.

(** [process_json(file_path, project, environment)]; [loaded] is what
    [open] and [json.load] give for the file. *)
Definition process_json (loaded : run json) (project environment : string)
  : run (list row) :=
  data ← loaded;
  tests_v ← Py.get data "tests" (JArr []);
  tests ← Py.iter tests_v;
  rows ← process_tests project environment tests [];
  collectors_v ← Py.get data "collectors" (JArr []);
  collectors ← Py.iter collectors_v;
  process_collectors project environment collectors rows.

(** What the directory walk of [main] finds for one entry of the base
    directory, and what reading the two files gives. *)
Record subdir : Type := Subdir {
  subpath : string;
  is_dir : bool;
  csv_file : option string;
  json_file : option string;
  csv_lines : run (list (list string));
  json_data : run json
}.

(** The diagnostics of [main] that report the fate of a project. *)
Inductive message : Type :=
| MissingFiles (subpath : string)
| NoProjectInfo (csv_file : string)
| Processed (subpath : string) (n : nat).

(** [not s] for a value that is [None] or a string. *)
Definition falsy_str (s : option string) : bool :=
  match s with
  | None => true
  | Some s => String.eqb s EmptyString
  end.

(** [env_from_csv or detect_environment(csv_file)] *)
Definition env_or (env_from_csv : option string) (csv_file : string) : string :=
  if falsy_str env_from_csv then detect_environment csv_file
  else default EmptyString env_from_csv.

(** One iteration of [for subdir in os.listdir(base_dir)]: the rows
    appended to final_all.csv and the diagnostic printed. *)
Definition process_subdir (sd : subdir) : run (list row * list message) :=
  if negb (is_dir sd) then mret ([], [])
  else if falsy_str (csv_file sd) || falsy_str (json_file sd)
  then mret ([], [MissingFiles (subpath sd)])
  else
    let csv := default EmptyString (csv_file sd) in
    lines ← csv_lines sd;
    let '(project_name, env_from_csv) := get_project_info_from_csv lines in
    if falsy_str project_name then mret ([], [NoProjectInfo csv])
    else
      let environment := env_or env_from_csv csv in
      rows ← process_json (json_data sd)
               (default EmptyString project_name) environment;
      mret (rows, [Processed (subpath sd) (length rows)]).

(** State of a run of [main]: the data rows of final_all.csv, the
    diagnostics printed, and the exception that ended the run, if any. *)
Record main_state : Type := MainState {
  written : list row;
  printed : list message;
  aborted : option string
}.

Fixpoint main_loop (subdirs : list subdir) (out : list row)
    (log : list message) : main_state :=
  match subdirs with
  | [] => MainState out log None
  | sd :: rest =>
      match process_subdir sd with
      | Done (rows, msgs) => main_loop rest (out ++ rows) (log ++ msgs)
      | Raised e => MainState out log (Some e)
      end
  end.

(** [main()], for the entries [os.listdir(base_dir)] returns. *)
Definition main (subdirs : list subdir) : main_state :=
  main_loop subdirs [] [].

(** The search for the two input files in [main]: [walk] lists, in the
    order of [os.walk(subpath)], each directory with its file names.
    The state is the pair [(csv_file, json_file)]. *)
Definition both_found (st : option string * option string) : bool :=
  negb (falsy_str st.1) && negb (falsy_str st.2).

Definition is_none (o : option string) : bool :=
  match o with None => true | Some _ => false end.

(** [for file in files: ...], leaving at the [break]. *)
Fixpoint scan_files (root : string) (files : list string)
    (st : option string * option string) : option string * option string :=
  match files with
  | [] => st
  | file :: rest =>
      let st' :=
        if endswith file ".csv" && is_none st.1
        then (Some (path_join root file), st.2)
        else if endswith file ".json" && is_none st.2
        then (st.1, Some (path_join root file))
        else st in
      if both_found st' then st' else scan_files root rest st'
  end.

(** [for root, dirs, files in os.walk(subpath): ...] *)
Fixpoint walk_files (walk : list (string * list string))
    (st : option string * option string) : option string * option string :=
  match walk with
  | [] => st
  | (root, files) :: rest =>
      let st' := scan_files root files st in
      if both_found st' then st' else walk_files rest st'
  end.

Definition find_files (walk : list (string * list string))
  : option string * option string :=
  walk_files walk (None, None).

(** The paths of the files of a walk whose name ends with [suffix], in
    the order of the walk. *)
Definition candidates (suffix : string) (walk : list (string * list string))
  : list string :=
  walk ≫= λ '(root, files),
    path_join root <$> filter (λ f, endswith f suffix = true) files.

(** The value a search variable ends with: what it held, or else the
    first candidate met. *)
Definition first_of (cur : option string) (found : list string)
  : option string :=
  match cur with
  | Some _ => cur
  | None => head found
  end.


(** The node identifier reported for a collector. *)
Definition collector_nodeid (c : json) : json :=
  match c with
  | JObj fields => default (JStr "<unknown>") (Py.assoc "nodeid" fields)
  | _ => JNull
  end.

(** A collector whose outcome is the string "failed". *)
Definition failed_collector (c : json) : bool :=
  match c with
  | JObj fields => Py.eq_str (default JNull (Py.assoc "outcome" fields)) "failed"
  | _ => false
  end.

End Coleta.

(** ** The classifier: interpret2.py *)

Module Interpret.
Import PyStr.

(** One data row of the interchange file, for a file whose cells of
    project, test_name, outcome and environment are all read as text
    ([Frame] below has the frames with missing or numeric cells). *)
Record record : Type := Rec {
  project : string;
  test_name : string;
  outcome : string;
  lineno : option Z;
  environment : string
}.

(** What lines 21 to 24 give: the rows of a file with the five columns,
    [FileNotFoundError], or another exception of [pd.read_csv] or of the
    header strip, with its message. *)
Inductive read_result : Type :=
| ReadOk (df : list record)
| FileNotFound
| ReadError (e : string).

(** The lines printed by [analyze_flaky_tests]. *)
Inductive message : Type :=
| Loaded (n : nat) (path : string)
| ColumnsFound (cols : list string)
| UniqueEnvironments (envs : list string)
| UniqueProjects (n : nat)
| ErrorNotFound (path : string)
| ErrorReading (e : string)
| TotalUnique (n : nat)
| EnvironmentsFound (envs : gset string)
| NoFlakyFound.

(** [df['test_id'] = df['project'] + '::' + df['test_name']] *)
Definition test_id (r : record) : string :=
  (project r +:+ "::") +:+ test_name r.

(** First occurrences, in order ([Series.unique], [drop_duplicates]);
    [seen] holds the values met so far. *)
Fixpoint first_occurrences {A} `{EqDecision A} (seen l : list A) : list A :=
  match l with
  | [] => []
  | x :: l' =>
      if decide (x ∈ seen) then first_occurrences seen l'
      else x :: first_occurrences (x :: seen) l'
  end.

Definition unique {A} `{EqDecision A} (l : list A) : list A :=
  first_occurrences [] l.

(** [set(df['environment'].unique())] *)
Definition all_environments (df : list record) : gset string :=
  list_to_set (unique (environment <$> df)).

(** [set(df['test_id'].unique())] *)
Definition all_test_ids (df : list record) : gset string :=
  list_to_set (unique (test_id <$> df)).

(** [df.groupby('test_id')['environment'].apply(set).reset_index()]:
    one line per key, keys in sorted order. *)
Definition test_environments (df : list record) : list (string * gset string) :=
  (λ k, (k, list_to_set (environment <$> filter (λ r, test_id r = k) df)))
    <$> sorted (unique (test_id <$> df)).

(** The environment universe of a run and the environments of the group
    of one test identity, as sets. *)
Definition environment_universe (df : list record) : gset string :=
  list_to_set (environment <$> df).

Definition group_environments (df : list record) (k : string) : gset string :=
  list_to_set (environment <$> filter (λ r, test_id r = k) df).

(** An entry of the [flaky_tests] list. *)
Record flaky : Type := Flaky {
  f_test_id : string;
  f_failing_environments : list string;
  f_passing_environments : list string;
  f_num_failing_envs : nat;
  f_num_passing_envs : nat
}.

(** [for _, row in test_environments.iterrows(): ...] *)
Fixpoint flaky_loop (all_environments : gset string)
    (rows : list (string * gset string)) : list flaky :=
  match rows with
  | [] => []
  | (test_id, failing_envs) :: rest =>
      if decide (failing_envs ≠ all_environments) then
        let missing_envs := all_environments ∖ failing_envs in
        {| f_test_id := test_id;
           f_failing_environments := sorted (elements failing_envs);
           f_passing_environments := sorted (elements missing_envs);
           f_num_failing_envs := size failing_envs;
           f_num_passing_envs := size missing_envs |}
        :: flaky_loop all_environments rest
      else flaky_loop all_environments rest
  end.

Definition flaky_tests (df : list record) : list flaky :=
  flaky_loop (all_environments df) (test_environments df).

(** A line of [test_details]: test_id, project, test_name, outcome. *)
Definition detail : Type := string * string * string * string.

Definition detail_of (r : record) : detail :=
  (test_id r, project r, test_name r, outcome r).

Definition d_test_id (d : detail) : string := d.1.1.1.

(** [df[['test_id','project','test_name','outcome']].drop_duplicates()] *)
Definition test_details (df : list record) : list detail :=
  unique (detail_of <$> df).

(** The lines a left merge on test_id produces for one left line: one
    per right line of the same key, or one with missing values when
    there is none. *)
Definition merged_lines (test_details : list detail) (f : flaky)
  : list (flaky * option detail) :=
  match filter (λ d, d_test_id d = f_test_id f) test_details with
  | [] => [(f, None)]
  | ds => (λ d, (f, Some d)) <$> ds
  end.

(** [flaky_df.merge(test_details, on='test_id', how='left')], the left
    lines in order. *)
Definition merge_left (flaky_df : list flaky) (test_details : list detail)
  : list (flaky * option detail) :=
  flaky_df ≫= merged_lines test_details.

(** A line of the returned frame; a cell the merge left missing is [None]. *)
Record verdict : Type := Verdict {
  v_project : option string;
  v_test_name : option string;
  v_outcome : option string;
  failing_environments : list string;
  passing_environments : list string;
  num_failing_envs : nat;
  num_passing_envs : nat
}.

(** [flaky_result[column_order]] *)
Definition select_columns (m : flaky * option detail) : verdict :=
  {| v_project := (λ d : detail, d.1.1.2) <$> m.2;
     v_test_name := (λ d : detail, d.1.2) <$> m.2;
     v_outcome := (λ d : detail, d.2) <$> m.2;
     failing_environments := f_failing_environments m.1;
     passing_environments := f_passing_environments m.1;
     num_failing_envs := f_num_failing_envs m.1;
     num_passing_envs := f_num_passing_envs m.1 |}.

(** The test identity a returned line stands for. *)
Definition verdict_key (v : verdict) : option string :=
  p ← v_project v; t ← v_test_name v; Some ((p +:+ "::") +:+ t).

Definition columns : list string :=
  ["project"; "test_name"; "outcome"; "lineno"; "environment"].

(** [analyze_flaky_tests(csv_file_path)] on such a file: the lines
    printed and the frame returned ([[]] is the empty [pd.DataFrame()]).
    With all cells text and all columns there, no column access fails
    and line 40 does not raise. *)
Definition analyze_flaky_tests (csv_file_path : string) (rd : read_result)
  : list message * list verdict :=
  match rd with
  | FileNotFound => ([ErrorNotFound csv_file_path], [])
  | ReadError e => ([ErrorReading e], [])
  | ReadOk df =>
      let log :=
        [ Loaded (length df) csv_file_path;
          ColumnsFound columns;
          UniqueEnvironments (sorted (unique (environment <$> df)));
          UniqueProjects (length (unique (project <$> df)));
          TotalUnique (size (all_test_ids df));
          EnvironmentsFound (all_environments df) ] in
      match flaky_tests df with
      | [] => (log ++ [NoFlakyFound], [])
      | flaky_df =>
          (log, select_columns <$> merge_left flaky_df (test_details df))
      end
  end.

(** Sample inputs: one test identity recorded with two outcomes, and two
    tests whose project and name differ but concatenate alike. *)
Definition two_outcomes : list record :=
  [ Rec "p1" "t1" "failed" None "linux";
    Rec "p1" "t1" "error" None "mac";
    Rec "p2" "t2" "failed" None "windows" ].

Definition colliding : list record :=
  [ Rec "a::b" "c" "failed" None "linux";
    Rec "a" "b::c" "failed" None "mac" ].

(** What the classifier reads of a record when it decides flakiness. *)
Definition observation (r : record) : string * string * string :=
  (project r, test_name r, environment r).

(** The frame returned for a file that was read. *)
Definition result (df : list record) : list verdict :=
  (analyze_flaky_tests "final.csv" (ReadOk df)).2.

End Interpret.

(** ** The classifier on the frame as pandas delivers it

    [Interpret] above follows lines 40 to 91 on rows whose text cells
    are all present.  [Frame] follows the whole of [analyze_flaky_tests]
    on the frame that [pd.read_csv] returns: a column may be absent, a
    cell of project, test_name, outcome or lineno may be missing (NaN,
    as pandas reads an empty or NA-like cell) or numeric (as pandas
    reads a column without text), and a step outside the [try] block
    may raise.  The labels of a frame are pairwise distinct.  The
    environment cells of a frame are text, as the extractor writes no
    row with an empty environment; a file in which some of them are
    empty is [Unsortable] below, and an environment column without any
    text is not covered. *)

Module Frame.
Import PyStr.

Inductive cell : Type :=
| Text (s : string)
| Number (z : Z)
| Missing.

#[global] Instance cell_eq_dec : EqDecision cell.
Proof. solve_decision. Defined.

(** One row of the frame, by column. *)
Record row : Type := Row {
  project : cell;
  test_name : cell;
  outcome : cell;
  lineno : cell;
  environment : string
}.

(** The frame after line 24: [list(df.columns)] and the rows.  The
    cells of a column whose label is not among [labels] are not read. *)
Record frame : Type := Frame {
  labels : list string;
  body : list row
}.

(** What lines 21 to 24 give: a frame, [FileNotFoundError], or another
    exception with its message.  [Unsortable n cols e] is a frame of [n]
    rows and columns [cols] whose environment column holds text and
    missing cells together: [sorted] at line 28 cannot compare them and
    raises a [TypeError] of message [e]. *)
Inductive loaded : Type :=
| Read (df : frame)
| NotFound
| Unreadable (e : string)
| Unsortable (n : nat) (cols : list string) (e : string).

(** [name in df.columns]; [df[name]] raises [KeyError] otherwise. *)
Definition has_column (df : frame) (name : string) : bool :=
  existsb (String.eqb name) (labels df).

Definition is_text (c : cell) : bool :=
  match c with Text _ => true | _ => false end.

Definition is_number (c : cell) : bool :=
  match c with Number _ => true | _ => false end.

(** [df['project'] + '::']: a column without text is numeric and the
    addition of a string to it raises; in a text column a missing cell
    stays missing. *)
Definition project_sep (df : frame) : run (list (option string)) :=
  let col := project <$> body df in
  if existsb is_number col
     || match col with [] => false | _ :: _ => negb (existsb is_text col) end
  then Raised "TypeError"
  else mret ((λ c, match c with
                   | Text p => Some (p +:+ "::")
                   | _ => None
                   end) <$> col).

(** One cell of [... + df['test_name']]. *)
Definition add_test_name (left : option string) (c : cell)
  : run (option string) :=
  match left, c with
  | Some l, Text t => mret (Some (l +:+ t))
  | Some _, Number _ => Raised "TypeError"
  | _, _ => mret None
  end.

Fixpoint add_column (left : list (option string)) (col : list cell)
  : run (list (option string)) :=
  match left, col with
  | l :: left', c :: col' =>
      x ← add_test_name l c;
      xs ← add_column left' col';
      mret (x :: xs)
  | _, _ => mret []
  end.

(** [df['project'] + '::' + df['test_name']] (line 40): the test_id of
    every row, [None] for a missing one. *)
Definition test_ids (df : frame) : run (list (option string)) :=
  left ← project_sep df;
  if negb (has_column df "test_name") then Raised "KeyError"
  else add_column left (test_name <$> body df).

(** The rows with their test_id. *)
Definition keyed : Type := option string * row.

(** [df.groupby('test_id')['environment'].apply(set).reset_index()]:
    one line per test_id that is not missing, in sorted order. *)
Definition test_environments (rows : list keyed)
  : list (string * gset string) :=
  (λ k, (k, list_to_set
              ((λ kr : keyed, environment kr.2)
                 <$> filter (λ kr : keyed, kr.1 = Some k) rows)))
    <$> sorted (Interpret.unique (omap fst rows)).

(** A line of [test_details]: test_id, project, test_name, outcome. *)
Definition detail : Type := option string * cell * cell * cell.

Definition detail_of (kr : keyed) : detail :=
  (kr.1, project kr.2, test_name kr.2, outcome kr.2).

Definition d_test_id (d : detail) : option string := d.1.1.1.

(** [df[['test_id','project','test_name','outcome']].drop_duplicates()] *)
Definition test_details (rows : list keyed) : list detail :=
  Interpret.unique (detail_of <$> rows).

(** The lines the left merge on test_id produces for one left line. *)
Definition merged_lines (test_details : list detail) (f : Interpret.flaky)
  : list (Interpret.flaky * option detail) :=
  match filter (λ d, d_test_id d = Some (Interpret.f_test_id f)) test_details with
  | [] => [(f, None)]
  | ds => (λ d, (f, Some d)) <$> ds
  end.

Definition merge_left (flaky_df : list Interpret.flaky)
    (test_details : list detail) : list (Interpret.flaky * option detail) :=
  flaky_df ≫= merged_lines test_details.

(** A line of the returned frame. *)
Record verdict : Type := Verdict {
  v_project : cell;
  v_test_name : cell;
  v_outcome : cell;
  failing_environments : list string;
  passing_environments : list string;
  num_failing_envs : nat;
  num_passing_envs : nat
}.

(** [flaky_result[column_order]] *)
Definition select_columns (m : Interpret.flaky * option detail) : verdict :=
  {| v_project := from_option (λ d : detail, d.1.1.2) Missing m.2;
     v_test_name := from_option (λ d : detail, d.1.2) Missing m.2;
     v_outcome := from_option (λ d : detail, d.2) Missing m.2;
     failing_environments := Interpret.f_failing_environments m.1;
     passing_environments := Interpret.f_passing_environments m.1;
     num_failing_envs := Interpret.f_num_failing_envs m.1;
     num_passing_envs := Interpret.f_num_passing_envs m.1 |}.

(** [analyze_flaky_tests(csv_file_path)]: the lines printed, and the
    frame returned or the exception that leaves the function. *)
Definition analyze_flaky_tests (csv_file_path : string) (ld : loaded)
  : list Interpret.message * run (list verdict) :=
  match ld with
  | NotFound => ([Interpret.ErrorNotFound csv_file_path], Done [])
  | Unreadable e => ([Interpret.ErrorReading e], Done [])
  | Unsortable n cols e =>
      ([ Interpret.Loaded n csv_file_path; Interpret.ColumnsFound cols;
         Interpret.ErrorReading e ], Done [])
  | Read df =>
      let log0 :=
        [ Interpret.Loaded (length (body df)) csv_file_path;
          Interpret.ColumnsFound (labels df) ] in
      if negb (has_column df "environment")
      then (log0 ++ [Interpret.ErrorReading "'environment'"], Done [])
      else
      let log1 := log0 ++
        [ Interpret.UniqueEnvironments
            (sorted (Interpret.unique (environment <$> body df))) ] in
      if negb (has_column df "project")
      then (log1 ++ [Interpret.ErrorReading "'project'"], Done [])
      else
      let log2 := log1 ++
        [ Interpret.UniqueProjects
            (length (Interpret.unique (project <$> body df))) ] in
      match test_ids df with
      | Raised exn => (log2, Raised exn)
      | Done ids =>
          let rows := zip ids (body df) in
          let all_environments : gset string :=
            list_to_set (Interpret.unique (environment <$> body df)) in
          let log3 := log2 ++
            [ Interpret.TotalUnique (length (Interpret.unique ids));
              Interpret.EnvironmentsFound all_environments ] in
          match Interpret.flaky_loop all_environments
                  (test_environments rows) with
          | [] => (log3 ++ [Interpret.NoFlakyFound], Done [])
          | flaky_df =>
              if negb (has_column df "outcome") then (log3, Raised "KeyError")
              else (log3,
                    Done (select_columns
                            <$> merge_left flaky_df (test_details rows)))
          end
      end
  end.


(** The [try] block ends in one of its [except] clauses. *)
Definition try_failed (ld : loaded) : Prop :=
  match ld with
  | Read df => has_column df "environment" = false ∨
               has_column df "project" = false
  | NotFound | Unreadable _ | Unsortable _ _ _ => True
  end.

(** The frame of a file whose text cells are all present, and the
    returned line with all its cells present. *)
Definition of_lineno (l : option Z) : cell :=
  match l with Some z => Number z | None => Missing end.

Definition of_record (r : Interpret.record) : row :=
  {| project := Text (Interpret.project r);
     test_name := Text (Interpret.test_name r);
     outcome := Text (Interpret.outcome r);
     lineno := of_lineno (Interpret.lineno r);
     environment := Interpret.environment r |}.

Definition of_records (df : list Interpret.record) : frame :=
  {| labels := Interpret.columns; body := of_record <$> df |}.

Definition of_option (o : option string) : cell :=
  match o with Some s => Text s | None => Missing end.

Definition of_verdict (v : Interpret.verdict) : verdict :=
  {| v_project := of_option (Interpret.v_project v);
     v_test_name := of_option (Interpret.v_test_name v);
     v_outcome := of_option (Interpret.v_outcome v);
     failing_environments := Interpret.failing_environments v;
     passing_environments := Interpret.passing_environments v;
     num_failing_envs := Interpret.num_failing_envs v;
     num_passing_envs := Interpret.num_passing_envs v |}.

(** The test_id line 40 gives a row when it does not raise. *)
Definition row_key (r : row) : option string :=
  match project r, test_name r with
  | Text p, Text t => Some ((p +:+ "::") +:+ t)
  | _, _ => None
  end.

Definition keyed_rows (df : frame) : list keyed :=
  (λ r, (row_key r, r)) <$> body df.

(** The environments of the whole frame and those of the rows of one
    test_id, as sets. *)
Definition environment_universe (df : frame) : gset string :=
  list_to_set (environment <$> body df).

Definition group_environments (df : frame) (k : string) : gset string :=
  list_to_set (environment <$> filter (λ r, row_key r = Some k) (body df)).

(** The list [flaky_tests] after the loop of lines 57 to 73, on a frame
    for which line 40 has not raised. *)
Definition flaky_tests (df : frame) : list Interpret.flaky :=
  Interpret.flaky_loop (environment_universe df)
    (test_environments (keyed_rows df)).

(** The row of a record with its test_id, and its detail line. *)
Definition keyed_record (r : Interpret.record) : keyed :=
  (Some (Interpret.test_id r), of_record r).

Definition of_detail (d : Interpret.detail) : detail :=
  (Some d.1.1.1, Text d.1.1.2, Text d.1.2, Text d.2).

(** Sample frames: a test without name beside a named one, and a
    project column read as numbers. *)
Definition unnamed_test : frame :=
  {| labels := Interpret.columns;
     body := [ Row (Text "p") Missing (Text "failed") Missing "linux";
               Row (Text "p") (Text "t2") (Text "failed") Missing "mac" ] |}.

Definition numeric_project : frame :=
  {| labels := Interpret.columns;
     body := [ Row (Number 123) (Text "t1") (Text "failed") Missing "linux";
               Row (Number 123) (Text "t1") (Text "failed") Missing "mac";
               Row (Number 123) (Text "t2") (Text "failed") Missing "windows" ] |}.

(** A stage without outcome, and a test without name beside one seen
    in every environment. *)
Definition missing_outcome : frame :=
  {| labels := Interpret.columns;
     body := [ Row (Text "p") (Text "t1") Missing Missing "linux";
               Row (Text "p") (Text "t2") (Text "failed") Missing "linux";
               Row (Text "p") (Text "t2") (Text "failed") Missing "mac" ] |}.



End Frame.


(** * Properties *)

(** ** Facts about the string operations *)

#[local] Arguments String.append !_ _ / : simpl nomatch.

Section PyStrFacts.
Import PyStr.

Lemma append_nil_r (s : string) : s +:+ "" = s.
Proof. induction s as [|c s IH]; simpl; [done | by rewrite IH]. Qed.

Lemma append_assoc (a b c : string) : (a +:+ b) +:+ c = a +:+ (b +:+ c).
Proof. induction a as [|x a IH]; simpl; [done | by rewrite IH]. Qed.

Lemma prefix_spec (a s : string) :
  String.prefix a s = true ↔ ∃ b, s = a +:+ b.
Proof.
  revert s. induction a as [|x a IH]; intros s.
  - destruct s; simpl; split; eauto.
  - destruct s as [|y s]; simpl.
    + split; [done | intros [b Hb]; discriminate].
    + destruct (Ascii.ascii_dec x y) as [->|Hne].
      * rewrite IH. split; intros [b Hb]; exists b; congruence.
      * split; [done | intros [b Hb]; congruence].
Qed.

Lemma str_in_spec (sub s : string) :
  str_in sub s = true ↔ Substring sub s.
Proof.
  unfold Substring. induction s as [|c s IH].
  - cbn [str_in]. rewrite orb_false_r, prefix_spec. split.
    + intros [b Hb]. by exists "", b.
    + intros (a & b & Hab). destruct a; [by exists b | discriminate].
  - cbn [str_in]. rewrite orb_true_iff, IH, prefix_spec. split.
    + intros [[b Hb] | (a & b & Hab)].
      * by exists "", b.
      * exists (String c a), b. simpl. by rewrite Hab.
    + intros (a & b & Hab). destruct a as [|x a].
      * left. by exists b.
      * right. exists a, b. simpl in Hab. congruence.
Qed.

Lemma str_in_false (sub s : string) :
  str_in sub s = false ↔ ¬ Substring sub s.
Proof. rewrite <- str_in_spec. by destruct (str_in sub s). Qed.

Lemma Substring_trans (a b s : string) :
  Substring a b → Substring b s → Substring a s.
Proof.
  intros (x & y & ->) (u & v & ->). exists (u +:+ x), (y +:+ v).
  by rewrite !append_assoc.
Qed.

Lemma lower_app (a b : string) : lower (a +:+ b) = lower a +:+ lower b.
Proof. induction a as [|c a IH]; simpl; [done | by rewrite IH]. Qed.

Lemma Substring_lower (sub s : string) :
  Substring sub s → Substring (lower sub) (lower s).
Proof.
  intros (a & b & ->). exists (lower a), (lower b). by rewrite !lower_app.
Qed.

Lemma contains_ci_dec (sub s : string) :
  (str_in sub (lower s) = true ∧ contains_ci sub s) ∨
  (str_in sub (lower s) = false ∧ ¬ contains_ci sub s).
Proof.
  unfold contains_ci. destruct (str_in sub (lower s)) eqn:E.
  - left. split; [done | by apply str_in_spec].
  - right. split; [done | by apply str_in_false].
Qed.

Lemma split_on_free (sep : ascii) (f : string) :
  free_of sep f = true → split_on sep f = [f].
Proof.
  induction f as [|c f IH]; simpl; [done |].
  destruct (Ascii.eqb c sep); simpl; [done |]. intros H. by rewrite IH.
Qed.

Lemma split_on_app (sep : ascii) (f t : string) :
  free_of sep f = true →
  split_on sep (f +:+ String sep t) = f :: split_on sep t.
Proof.
  induction f as [|c f IH]; simpl.
  - by rewrite Ascii.eqb_refl.
  - destruct (Ascii.eqb c sep); simpl; [done |]. intros H. by rewrite IH.
Qed.

Lemma split_on_join (sep : ascii) (fields : list string) :
  fields ≠ [] → Forall (λ f, free_of sep f = true) fields →
  split_on sep (join (String sep "") fields) = fields.
Proof.
  intros Hne Hall. induction Hall as [|f fs Hf Hfs IH]; [done |].
  destruct fs as [|g fs].
  - simpl. by apply split_on_free.
  - change (join (String sep "") (f :: g :: fs))
      with (f +:+ String sep "" +:+ join (String sep "") (g :: fs)).
    change (String sep "" +:+ ?t) with (String sep t).
    rewrite split_on_app by done. by rewrite IH.
Qed.

Lemma split_on_nonempty (sep : ascii) (s : string) : split_on sep s ≠ [].
Proof.
  destruct s as [|c s]; simpl; [done |].
  destruct (Ascii.eqb c sep); [done |]. by destruct (split_on sep s).
Qed.

Lemma split_on_fields_free (sep : ascii) (s : string) :
  Forall (λ f, free_of sep f = true) (split_on sep s).
Proof.
  induction s as [|c s IH]; simpl.
  - by repeat constructor.
  - destruct (Ascii.eqb c sep) eqn:E; [by constructor |].
    destruct (split_on sep s) as [|f fs].
    + repeat constructor. simpl. by rewrite E.
    + inversion IH; subst. constructor; [| done]. simpl. by rewrite E.
Qed.

Lemma join_split_on (sep : ascii) (s : string) :
  join (String sep "") (split_on sep s) = s.
Proof.
  induction s as [|c s IH]; simpl; [done |].
  destruct (Ascii.eqb_spec c sep) as [->|Hne].
  - pose proof (split_on_nonempty sep s) as Hn.
    destruct (split_on sep s) as [|f fs]; [done |].
    change (join (String sep "") ("" :: f :: fs))
      with ("" +:+ String sep "" +:+ join (String sep "") (f :: fs)).
    rewrite IH. done.
  - pose proof (split_on_nonempty sep s) as Hn.
    destruct (split_on sep s) as [|f fs]; [done |].
    destruct fs as [|g fs].
    + simpl in *. by rewrite IH.
    + change (join (String sep "") (String c f :: g :: fs))
        with (String c (f +:+ String sep "" +:+ join (String sep "") (g :: fs))).
      f_equal. exact IH.
Qed.

Lemma lstrip_spec (s : string) :
  ∃ l, s = l +:+ lstrip s ∧ all_space l = true ∧
       starts_space (lstrip s) = false.
Proof.
  induction s as [|c s (l & Hl & Hsp & Hst)]; simpl.
  - by exists "".
  - destruct (is_space c) eqn:E.
    + exists (String c l). simpl. rewrite E, Hsp. split; [by f_equal | done].
    + exists "". simpl. by rewrite E.
Qed.

Lemma rstrip_spec (s : string) :
  ∃ r, s = rstrip s +:+ r ∧ all_space r = true ∧
       ends_space (rstrip s) = false ∧
       (starts_space s = false → starts_space (rstrip s) = false).
Proof.
  induction s as [|c s (r & Hr & Hsp & Hend & Hst)]; simpl.
  - by exists "".
  - destruct (rstrip s) as [|d t] eqn:E.
    + simpl in Hr. subst r. destruct (is_space c) eqn:Ec.
      * exists (String c s). simpl. by rewrite Ec, Hsp.
      * exists s. simpl. by rewrite Ec.
    + exists r. simpl. repeat split; [by f_equal | done | | done].
      exact Hend.
Qed.

Lemma strip_spec (s : string) :
  ∃ l r, s = l +:+ strip s +:+ r ∧
         all_space l = true ∧ all_space r = true ∧
         starts_space (strip s) = false ∧ ends_space (strip s) = false.
Proof.
  destruct (lstrip_spec s) as (l & Hl & Hlsp & Hst).
  destruct (rstrip_spec (lstrip s)) as (r & Hr & Hrsp & Hend & Hkeep).
  exists l, r. unfold strip. rewrite <- Hr. repeat split; auto.
Qed.

End PyStrFacts.

(** ** The extractor *)

Section ColetaProperties.
Import PyStr Coleta.

Lemma win_in_darwin (name : string) :
  Substring "darwin" name ∨ contains_ci "darwin" name → contains_ci "win" name.
Proof.
  intros H. assert (contains_ci "darwin" name) as Hd.
  { destruct H as [H|H]; [| done]. by apply (Substring_lower "darwin"). }
  apply (Substring_trans _ "darwin"); [| done]. by exists "dar", "".
Qed.

(** C10. [detect_environment] always answers one of mac, linux, windows,
    unknown; it tests the lower-cased name for "mac" first, then for
    "linux" or "ubuntu", then for "windows" or "win"; hence a name that
    contains "darwin" and, ignoring case, none of "mac", "linux",
    "ubuntu" is detected as windows. *)
Theorem detect_environment_priority (name : string) :
  let r := detect_environment name in
  (r = "mac" ∨ r = "linux" ∨ r = "windows" ∨ r = "unknown") ∧
  (contains_ci "mac" name → r = "mac") ∧
  (¬ contains_ci "mac" name →
   contains_ci "linux" name ∨ contains_ci "ubuntu" name → r = "linux") ∧
  (¬ contains_ci "mac" name → ¬ contains_ci "linux" name →
   ¬ contains_ci "ubuntu" name →
   contains_ci "windows" name ∨ contains_ci "win" name → r = "windows") ∧
  (¬ contains_ci "mac" name → ¬ contains_ci "linux" name →
   ¬ contains_ci "ubuntu" name → ¬ contains_ci "windows" name →
   ¬ contains_ci "win" name → r = "unknown") ∧
  (Substring "darwin" name ∨ contains_ci "darwin" name →
   ¬ contains_ci "mac" name → ¬ contains_ci "linux" name →
   ¬ contains_ci "ubuntu" name → r = "windows").
Proof.
  intros r. subst r. pose proof (win_in_darwin name) as Hdw.
  unfold detect_environment. cbv zeta.
  destruct (contains_ci_dec "mac" name) as [[Em Hm]|[Em Hm]];
  destruct (contains_ci_dec "linux" name) as [[El Hl]|[El Hl]];
  destruct (contains_ci_dec "ubuntu" name) as [[Eu Hu]|[Eu Hu]];
  destruct (contains_ci_dec "windows" name) as [[Ew Hw]|[Ew Hw]];
  destruct (contains_ci_dec "win" name) as [[En Hn]|[En Hn]];
  rewrite ?Em, ?El, ?Eu, ?Ew, ?En; cbn [orb];
  repeat split; intros; auto; tauto.
Qed.

Lemma detect_environment_priority_witness :
  detect_environment "results-Darwin.csv" = "windows".
Proof.
  apply (detect_environment_priority "results-Darwin.csv").
  - right. apply str_in_spec. vm_compute. reflexivity.
  - apply str_in_false. vm_compute. reflexivity.
  - apply str_in_false. vm_compute. reflexivity.
  - apply str_in_false. vm_compute. reflexivity.
Defined.

Lemma bind_Done {A B} (f : A → run B) (a : A) : Done a ≫= f = f a.
Proof. reflexivity. Qed.

(** Case analysis on the first call of a sequence that returned. *)
Ltac run_step H :=
  match type of H with
  | context [mbind _ ?m] =>
      let E := fresh "E" in
      destruct m eqn:E; [rewrite bind_Done in H | discriminate H]
  end.

Lemma stage_row_length project environment test nodeid stage_data rows :
  stage_row project environment test nodeid stage_data = Done rows →
  length rows = 1.
Proof.
  unfold stage_row. intros H. do 4 run_step H. by inversion H.
Qed.

Lemma scan_stages_length project environment test nodeid todo rows :
  scan_stages project environment test nodeid todo = Done rows →
  length rows ≤ 1.
Proof.
  revert rows. induction todo as [|stage rest IH]; intros rows H.
  - inversion H. simpl. lia.
  - cbn [scan_stages] in H. run_step H.
    match type of H with context [Py.truthy ?d] => destruct (Py.truthy d) end.
    + apply stage_row_length in H. lia.
    + by apply IH.
Qed.

Lemma process_test_length project environment test rows :
  process_test project environment test = Done rows → length rows ≤ 1.
Proof.
  unfold process_test. intros H. run_step H.
  by apply scan_stages_length in H.
Qed.

Lemma process_tests_length project environment tests acc rows :
  process_tests project environment tests acc = Done rows →
  length rows ≤ length acc + length tests.
Proof.
  revert acc rows. induction tests as [|test rest IH]; intros acc rows H.
  - inversion H. simpl. lia.
  - cbn [process_tests] in H. run_step H.
    apply process_test_length in E. apply IH in H.
    rewrite length_app in H. simpl. lia.
Qed.

(** C4. A test of the report yields at most one record: the one built
    from the first of setup, call, teardown whose data is present and
    non-empty, whatever the later stages hold, and none when no stage
    is populated; so the tests of a report yield at most as many records
    as there are tests. *)
Theorem process_test_first_stage_wins (project environment : string) :
  (∀ fields,
     process_test project environment (JObj fields) =
       match spec_first_populated fields with
       | Some stage_data =>
           stage_row project environment (JObj fields)
             (default JNull (Py.assoc "nodeid" fields)) stage_data
       | None => Done []
       end) ∧
  (∀ test rows,
     process_test project environment test = Done rows → length rows ≤ 1) ∧
  (∀ tests rows,
     process_tests project environment tests [] = Done rows →
     length rows ≤ length tests) ∧
  process_json
    (Done (JObj [("tests", JArr [JObj [
       ("nodeid", JStr "t.py::test_a"); ("lineno", JNum 3);
       ("setup", JObj [("outcome", JStr "passed")]);
       ("call", JObj [("outcome", JStr "failed");
                      ("crash", JObj [("lineno", JNum 7)])])]])]))
    project environment =
  Done [ {| project := project; test_name := JStr "t.py::test_a";
            outcome := JStr "passed"; lineno := JNum 3;
            environment := environment |} ].
Proof.
  repeat split.
  - intros fields. unfold process_test, spec_first_populated. simpl.
    destruct (Py.truthy (default JNull (Py.assoc "setup" fields))); [done |].
    destruct (Py.truthy (default JNull (Py.assoc "call" fields))); [done |].
    by destruct (Py.truthy (default JNull (Py.assoc "teardown" fields))).
  - intros test rows. apply process_test_length.
  - intros tests rows H. by apply process_tests_length in H.
Qed.

Lemma process_test_first_stage_wins_witness :
  length [ {| project := "p"; test_name := JNull; outcome := JNull;
              lineno := JNull; environment := "linux" |} ] ≤ 1.
Proof.
  apply (proj1 (proj2 (process_test_first_stage_wins "p" "linux"))
           (JObj [("teardown", JObj [("x", JNull)])])).
  reflexivity.
Defined.

Lemma main_loop_log (subdirs : list subdir) (out : list row)
    (log : list message) :
  main_loop subdirs out log =
    let st := main_loop subdirs out [] in
    MainState (written st) (log ++ printed st) (aborted st).
Proof.
  revert out log. induction subdirs as [|sd rest IH]; intros out log; simpl.
  - by rewrite app_nil_r.
  - destruct (process_subdir sd) as [[rows msgs]|e]; simpl.
    + rewrite (IH _ (log ++ msgs)), (IH _ msgs). simpl.
      by rewrite app_assoc.
    + by rewrite app_nil_r.
Qed.

Lemma main_loop_skip (pre post : list subdir) (sd : subdir)
    (msgs : list message) (out : list row) (log : list message) :
  process_subdir sd = Done ([], msgs) →
  written (main_loop (pre ++ sd :: post) out log) =
    written (main_loop (pre ++ post) out log) ∧
  aborted (main_loop (pre ++ sd :: post) out log) =
    aborted (main_loop (pre ++ post) out log).
Proof.
  intros Hsd. revert out log.
  induction pre as [|x pre IH]; intros out log; simpl.
  - rewrite Hsd, app_nil_r.
    rewrite (main_loop_log post out (log ++ msgs)).
    by rewrite (main_loop_log post out log).
  - destruct (process_subdir x) as [[rows ms]|e]; [apply IH | done].
Qed.

Lemma get_project_info_short (lines : list (list string)) :
  length lines < 2 → get_project_info_from_csv lines = (None, None).
Proof.
  intros H. unfold get_project_info_from_csv.
  by destruct lines as [|? [|? ?]]; simpl in *; [| | lia].
Qed.

(** C8. Project and environment come from row 1 of the metadata only:
    however that row's comma-joined text divides into comma-free fields,
    the project is its first field and the environment its last, each
    stripped of surrounding whitespace, so header "a,b,c" over row
    "proj1, , , , linux" gives "proj1" and "linux".  With fewer than two
    rows nothing is resolved, and [main] skips that project with a
    diagnostic and handles the other directories as if it were absent. *)
Theorem get_project_info_row_one :
  get_project_info_from_csv
    [["a"; "b"; "c"]; ["proj1"; " "; " "; " "; " linux"]] =
    (Some "proj1", Some "linux") ∧
  (∀ header second rest fields,
     fields ≠ [] → Forall (λ f, free_of "," f = true) fields →
     join "," fields = join "," second →
     get_project_info_from_csv (header :: second :: rest) =
       (Some (strip (hd "" fields)), Some (strip (List.last fields "")))) ∧
  (∀ s, ∃ l r, s = l +:+ strip s +:+ r ∧
        all_space l = true ∧ all_space r = true ∧
        starts_space (strip s) = false ∧ ends_space (strip s) = false) ∧
  (∀ lines, length lines < 2 →
     get_project_info_from_csv lines = (None, None)) ∧
  (∀ pre sd post csv jf lines,
     is_dir sd = true → csv_file sd = Some csv → json_file sd = Some jf →
     csv ≠ "" → jf ≠ "" →
     csv_lines sd = Done lines → length lines < 2 →
     process_subdir sd = Done ([], [NoProjectInfo csv]) ∧
     written (main (pre ++ sd :: post)) = written (main (pre ++ post)) ∧
     aborted (main (pre ++ sd :: post)) = aborted (main (pre ++ post))).
Proof.
  split; [reflexivity |]. split; [| split; [| split]].
  - intros header second rest fields Hne Hfree Hjoin.
    unfold get_project_info_from_csv. simpl.
    by rewrite <- Hjoin, (split_on_join "," fields).
  - apply strip_spec.
  - apply get_project_info_short.
  - intros pre sd post csv jf lines Hdir Hcsv Hjson Hc Hj Hlines Hshort.
    assert (process_subdir sd = Done ([], [NoProjectInfo csv])) as Hsd.
    { unfold process_subdir. rewrite Hdir, Hcsv, Hjson, Hlines. simpl.
      apply String.eqb_neq in Hc, Hj. rewrite Hc, Hj. simpl.
      by rewrite get_project_info_short. }
    split; [done |]. by apply (main_loop_skip pre post sd [NoProjectInfo csv]).
Qed.

Lemma get_project_info_row_one_witness :
  get_project_info_from_csv
    [["name"; "os"]; ["flask "; "x,y"; " mac "]; ["other"; "row"]] =
    (Some "flask", Some "mac") ∧
  written (main
    [ Subdir "base/p0" true (Some "base/p0/meta.csv") (Some "base/p0/r.json")
        (Done [["project"; "os"]]) (Done (JObj []));
      Subdir "base/p1" true (Some "base/p1/meta.csv") (Some "base/p1/r.json")
        (Done [["project"; "os"]; ["p1"; "linux"]])
        (Done (JObj [("tests", JArr [JObj [
           ("nodeid", JStr "t"); ("call", JObj [("outcome", JStr "failed")])]])])) ]) =
  written (main
    [ Subdir "base/p1" true (Some "base/p1/meta.csv") (Some "base/p1/r.json")
        (Done [["project"; "os"]; ["p1"; "linux"]])
        (Done (JObj [("tests", JArr [JObj [
           ("nodeid", JStr "t"); ("call", JObj [("outcome", JStr "failed")])]])])) ]).
Proof.
  split.
  - apply (proj1 (proj2 get_project_info_row_one)
             ["name"; "os"] ["flask "; "x,y"; " mac "] [["other"; "row"]]
             ["flask "; "x"; "y"; " mac "]).
    + discriminate.
    + repeat constructor.
    + reflexivity.
  - refine (proj1 (proj2 (proj2 (proj2 (proj2 (proj2 get_project_info_row_one)))
      [] _ [_] "base/p0/meta.csv" "base/p0/r.json" [["project"; "os"]]
      _ _ _ _ _ _ _))); simpl; (reflexivity || discriminate || lia).
Defined.

End ColetaProperties.

(** ** The classifier *)

Section InterpretProperties.
Import PyStr Interpret.

Lemma sorted_perm (l : list string) : sorted l ≡ₚ l.
Proof. apply merge_sort_Permutation. Qed.

Lemma elem_of_sorted (x : string) (l : list string) : x ∈ sorted l ↔ x ∈ l.
Proof. by rewrite sorted_perm. Qed.



Section first_occurrences.
Context {A : Type} `{EqDecision A}.
Implicit Types (l seen : list A) (x : A).

Lemma elem_of_first_occurrences x seen l :
  x ∈ first_occurrences seen l ↔ x ∈ l ∧ x ∉ seen.
Proof.
  revert seen. induction l as [|y l IH]; intros seen; simpl.
  - rewrite elem_of_nil. tauto.
  - rewrite elem_of_cons. case_decide as Hy.
    + rewrite IH. split; [tauto |]. intros [[->|?] ?]; tauto.
    + rewrite elem_of_cons, IH, elem_of_cons. split.
      * intros [->|[? ?]]; tauto.
      * intros [[->|?] ?]; [tauto |].
        destruct (decide (x = y)) as [->|?]; tauto.
Qed.

Lemma elem_of_unique x l : x ∈ unique l ↔ x ∈ l.
Proof.
  unfold unique. rewrite elem_of_first_occurrences, elem_of_nil. tauto.
Qed.

Lemma NoDup_first_occurrences seen l : NoDup (first_occurrences seen l).
Proof.
  revert seen. induction l as [|y l IH]; intros seen; simpl.
  - constructor.
  - case_decide as Hy; [apply IH |].
    constructor; [| apply IH].
    rewrite elem_of_first_occurrences, elem_of_cons. tauto.
Qed.

Lemma NoDup_unique l : NoDup (unique l).
Proof. apply NoDup_first_occurrences. Qed.

Lemma filter_first_occurrences (P : A → Prop) `{∀ x, Decision (P x)}
    seen seen' l :
  (∀ x, P x → x ∈ seen ↔ x ∈ seen') →
  filter P (first_occurrences seen l) = first_occurrences seen' (filter P l).
Proof.
  revert seen seen'. induction l as [|y l IH]; intros seen seen' Hs; [done |].
  cbn [first_occurrences]. rewrite (filter_cons P y l).
  destruct (decide (P y)) as [Py|Py].
  - cbn [first_occurrences]. destruct (decide (y ∈ seen)) as [Hy|Hy].
    + rewrite decide_True by (by apply Hs). by apply IH.
    + rewrite decide_False by (by rewrite <- Hs). rewrite filter_cons_True by done.
      f_equal. apply IH. intros x Px. rewrite !elem_of_cons. by rewrite Hs.
  - destruct (decide (y ∈ seen)) as [Hy|Hy].
    + by apply IH.
    + rewrite filter_cons_False by done. apply IH.
      intros x Px. rewrite elem_of_cons, Hs by done.
      split; [intros [->|?]; [done | done] | by right].
Qed.

Lemma filter_unique (P : A → Prop) `{∀ x, Decision (P x)} l :
  filter P (unique l) = unique (filter P l).
Proof. by apply filter_first_occurrences. Qed.

End first_occurrences.

Lemma all_environments_universe (df : list record) :
  all_environments df = environment_universe df.
Proof.
  apply set_eq. intros e. unfold all_environments, environment_universe.
  by rewrite !elem_of_list_to_set, elem_of_unique.
Qed.

Lemma elem_of_group_environments (df : list record) (k e : string) :
  e ∈ group_environments df k ↔
  ∃ r, r ∈ df ∧ test_id r = k ∧ environment r = e.
Proof.
  unfold group_environments. rewrite elem_of_list_to_set, list_elem_of_fmap.
  split.
  - intros (r & -> & Hr). apply list_elem_of_filter in Hr as [Hk Hr]. eauto.
  - intros (r & Hr & Hk & <-). exists r. split; [done |].
    apply list_elem_of_filter. done.
Qed.



Lemma elem_of_test_environments (df : list record) (k : string)
    (s : gset string) :
  (k, s) ∈ test_environments df ↔
  k ∈ test_id <$> df ∧ s = group_environments df k.
Proof.
  unfold test_environments. rewrite list_elem_of_fmap. split.
  - intros (k' & [= -> ->] & Hk). by rewrite elem_of_sorted, elem_of_unique in Hk.
  - intros [Hk ->]. exists k. by rewrite elem_of_sorted, elem_of_unique.
Qed.

Lemma test_environments_keys (df : list record) :
  (test_environments df).*1 = sorted (unique (test_id <$> df)).
Proof.
  unfold test_environments. rewrite <- list_fmap_compose.
  apply list_fmap_id.
Qed.

Lemma NoDup_test_environments (df : list record) :
  NoDup (test_environments df).*1.
Proof.
  rewrite test_environments_keys, sorted_perm. apply NoDup_unique.
Qed.

(** The entry [flaky_loop] appends for a line of [test_environments]. *)
Lemma elem_of_flaky_loop (U : gset string)
    (rows : list (string * gset string)) (f : flaky) :
  f ∈ flaky_loop U rows ↔
  ∃ k s, (k, s) ∈ rows ∧ s ≠ U ∧
         f = Flaky k (sorted (elements s)) (sorted (elements (U ∖ s)))
               (size s) (size (U ∖ s)).
Proof.
  induction rows as [|[k s] rows IH]; simpl.
  - rewrite elem_of_nil. split; [done |]. intros (k & s & H & _).
    by apply elem_of_nil in H.
  - case_decide as Hs.
    + rewrite elem_of_cons, IH. split.
      * intros [->|(k' & s' & Hin & Hne & ->)].
        -- exists k, s. split; [left | done].
        -- exists k', s'. split; [by right | done].
      * intros (k' & s' & Hin & Hne & ->).
        apply elem_of_cons in Hin as [[= -> ->]|Hin]; [by left |].
        right. eauto.
    + rewrite IH. split.
      * intros (k' & s' & Hin & Hne & ->). exists k', s'.
        split; [by right | done].
      * intros (k' & s' & Hin & Hne & ->).
        apply elem_of_cons in Hin as [[= -> ->]|Hin]; [done |]. eauto.
Qed.

Lemma flaky_loop_keys (U : gset string) (rows : list (string * gset string)) :
  f_test_id <$> flaky_loop U rows = (filter (λ p, p.2 ≠ U) rows).*1.
Proof.
  induction rows as [|[k s] rows IH]; [done |].
  cbn [flaky_loop]. rewrite filter_cons. cbn [snd].
  destruct (decide (s ≠ U)); [| exact IH].
  rewrite !fmap_cons. cbn [f_test_id fst]. by rewrite IH.
Qed.

Lemma NoDup_flaky_tests (df : list record) :
  NoDup (f_test_id <$> flaky_tests df).
Proof.
  unfold flaky_tests. rewrite flaky_loop_keys.
  eapply sublist_NoDup; [apply NoDup_test_environments |].
  apply fmap_sublist, sublist_filter.
Qed.

Lemma elem_of_flaky_tests (df : list record) (f : flaky) :
  f ∈ flaky_tests df ↔
  ∃ k, k ∈ test_id <$> df ∧
       group_environments df k ≠ environment_universe df ∧
       f = Flaky k (sorted (elements (group_environments df k)))
             (sorted (elements
                (environment_universe df ∖ group_environments df k)))
             (size (group_environments df k))
             (size (environment_universe df ∖ group_environments df k)).
Proof.
  unfold flaky_tests. rewrite elem_of_flaky_loop, all_environments_universe.
  split.
  - intros (k & s & Hin & Hne & ->).
    apply elem_of_test_environments in Hin as [Hk ->]. eauto.
  - intros (k & Hk & Hne & ->). exists k, (group_environments df k).
    by rewrite elem_of_test_environments.
Qed.

Lemma flaky_ids (df : list record) (k : string) :
  k ∈ f_test_id <$> flaky_tests df ↔
  k ∈ test_id <$> df ∧
  group_environments df k ≠ environment_universe df.
Proof.
  rewrite list_elem_of_fmap. split.
  - intros (f & -> & Hf). apply elem_of_flaky_tests in Hf.
    by destruct Hf as (k & Hk & Hne & ->).
  - intros [Hk Hne]. eexists. split; [| apply elem_of_flaky_tests; eauto].
    done.
Qed.

Lemma result_unfold (df : list record) :
  result df = select_columns <$> merge_left (flaky_tests df) (test_details df).
Proof.
  unfold result, analyze_flaky_tests. by destruct (flaky_tests df).
Qed.

Lemma merge_row_matched (f : flaky) (ds : list detail) (d : detail) :
  d ∈ ds → d_test_id d = f_test_id f →
  merged_lines ds f =
    (λ d, (f, Some d)) <$> filter (λ d, d_test_id d = f_test_id f) ds.
Proof.
  intros Hd Hk. unfold merged_lines.
  destruct (filter (λ d, d_test_id d = f_test_id f) ds) eqn:E; [| done].
  exfalso. by eapply (filter_nil_not_elem_of _ ds d).
Qed.

Lemma flaky_has_record (df : list record) (f : flaky) :
  f ∈ flaky_tests df → ∃ r, r ∈ df ∧ test_id r = f_test_id f.
Proof.
  intros Hf. apply elem_of_flaky_tests in Hf as (k & Hk & _ & ->).
  apply list_elem_of_fmap in Hk as (r & -> & Hr). eauto.
Qed.

Lemma merge_row_flaky (df : list record) (f : flaky) :
  f ∈ flaky_tests df →
  merged_lines (test_details df) f =
    (λ d, (f, Some d)) <$>
      filter (λ d, d_test_id d = f_test_id f) (test_details df).
Proof.
  intros Hf. destruct (flaky_has_record df f Hf) as (r & Hr & Hk).
  apply (merge_row_matched f _ (detail_of r)); [| done].
  unfold test_details. rewrite elem_of_unique, list_elem_of_fmap. eauto.
Qed.

Lemma elem_of_result (df : list record) (v : verdict) :
  v ∈ result df ↔
  ∃ f r, f ∈ flaky_tests df ∧ r ∈ df ∧ test_id r = f_test_id f ∧
         v = select_columns (f, Some (detail_of r)).
Proof.
  rewrite result_unfold, list_elem_of_fmap. unfold merge_left. split.
  - intros (m & -> & Hm). apply list_elem_of_bind in Hm as (f & Hm & Hf).
    rewrite merge_row_flaky in Hm by done.
    apply list_elem_of_fmap in Hm as (d & -> & Hd).
    apply list_elem_of_filter in Hd as [Hk Hd]. unfold test_details in Hd.
    rewrite elem_of_unique, list_elem_of_fmap in Hd.
    destruct Hd as (r & -> & Hr). eauto 6.
  - intros (f & r & Hf & Hr & Hk & ->). eexists. split; [done |].
    apply list_elem_of_bind. exists f. split; [| done].
    rewrite merge_row_flaky by done. apply list_elem_of_fmap.
    exists (detail_of r). split; [done |]. apply list_elem_of_filter.
    split; [done |]. unfold test_details.
    rewrite elem_of_unique, list_elem_of_fmap. eauto.
Qed.

(** On rows whose text cells are all present, a test identity of the
    input is classified flaky exactly when
    the set of environments of its group differs from the set of all
    environments of the input, both in the list of flaky entries and in
    the returned frame.  With t1 seen on linux and mac and t2 on linux,
    mac and windows, only t1 is reported, failing on linux and mac and
    passing on windows. *)
Theorem flaky_iff_environments_differ :
  (∀ df k,
     k ∈ f_test_id <$> flaky_tests df ↔
     k ∈ test_id <$> df ∧
     group_environments df k ≠ environment_universe df) ∧
  (∀ df k,
     (∃ v, v ∈ result df ∧ verdict_key v = Some k) ↔
     k ∈ test_id <$> df ∧
     group_environments df k ≠ environment_universe df) ∧
  result [ Rec "p1" "t1" "failed" None "linux";
           Rec "p1" "t1" "failed" None "mac";
           Rec "p1" "t2" "failed" None "linux";
           Rec "p1" "t2" "failed" None "mac";
           Rec "p1" "t2" "failed" None "windows" ] =
    [ Verdict (Some "p1") (Some "t1") (Some "failed")
        ["linux"; "mac"] ["windows"] 2 1 ].
Proof.
  split; [apply flaky_ids |]. split; [| by vm_compute].
  intros df k. rewrite <- flaky_ids. split.
  - intros (v & Hv & Hkey).
    apply elem_of_result in Hv as (f & r & Hf & Hr & Hk & ->).
    injection Hkey as <-. fold (test_id r). rewrite Hk.
    apply list_elem_of_fmap. eauto.
  - intros Hk. apply list_elem_of_fmap in Hk as (f & -> & Hf).
    destruct (flaky_has_record df f Hf) as (r & Hr & Hk).
    exists (select_columns (f, Some (detail_of r))). split.
    + apply elem_of_result. eauto 6.
    + cbn. by rewrite <- Hk.
Qed.

Lemma flaky_iff_environments_differ_witness :
  ∃ v, v ∈ result [ Rec "p1" "t1" "failed" None "linux";
                    Rec "p1" "t1" "failed" None "mac";
                    Rec "p2" "t9" "error" None "windows" ] ∧
       verdict_key v = Some "p1::t1".
Proof.
  apply (proj1 (proj2 flaky_iff_environments_differ)). split.
  - apply (bool_decide_eq_true_1 _). vm_compute. reflexivity.
  - apply (bool_decide_eq_true_1 _). vm_compute. reflexivity.
Defined.





(** C9. On an interchange file with a header and no data row the
    classifier returns, with an empty frame. *)
Theorem header_only_returns_empty (path : string) (df : list record) :
  length df = 0 →
  analyze_flaky_tests path (ReadOk df) =
    ([ Loaded 0 path; ColumnsFound columns; UniqueEnvironments [];
       UniqueProjects 0; TotalUnique 0; EnvironmentsFound ∅; NoFlakyFound ],
     []).
Proof.
  intros Hlen. destruct df as [|r df]; [| discriminate Hlen].
  reflexivity.
Qed.

Lemma header_only_returns_empty_witness :
  analyze_flaky_tests "final_all.csv" (ReadOk []) =
    ([ Loaded 0 "final_all.csv"; ColumnsFound columns; UniqueEnvironments [];
       UniqueProjects 0; TotalUnique 0; EnvironmentsFound ∅; NoFlakyFound ],
     []).
Proof. apply (header_only_returns_empty "final_all.csv" []). reflexivity. Defined.


Lemma filter_fmap_comm {A B} (P : B → Prop) `{∀ y, Decision (P y)}
    (g : A → B) (l : list A) :
  filter P (g <$> l) = g <$> filter (λ x, P (g x)) l.
Proof.
  induction l as [|x l IH]; [done |].
  rewrite fmap_cons, !filter_cons.
  destruct (decide (P (g x))); by rewrite IH.
Qed.

Lemma filter_all {A} (P : A → Prop) `{∀ x, Decision (P x)} (l : list A) :
  (∀ x, x ∈ l → P x) → filter P l = l.
Proof.
  induction l as [|x l IH]; intros Hall; [done |].
  rewrite filter_cons_True by (apply Hall; left).
  f_equal. apply IH. intros y Hy. apply Hall. by right.
Qed.

Lemma filter_none {A} (P : A → Prop) `{∀ x, Decision (P x)} (l : list A) :
  (∀ x, x ∈ l → ¬ P x) → filter P l = [].
Proof.
  induction l as [|x l IH]; intros Hall; [done |].
  rewrite filter_cons_False by (apply Hall; left).
  apply IH. intros y Hy. apply Hall. by right.
Qed.

Lemma merged_line_key (df : list record) (f : flaky)
    (m : flaky * option detail) (k : string) :
  m ∈ merged_lines (test_details df) f →
  verdict_key (select_columns m) = Some k → f_test_id f = k.
Proof.
  unfold merged_lines. intros Hm Hkey.
  destruct (filter _ (test_details df)) as [|d0 ds] eqn:E.
  - apply list_elem_of_singleton in Hm as ->. discriminate Hkey.
  - apply list_elem_of_fmap in Hm as (d & -> & Hd). rewrite <- E in Hd.
    apply list_elem_of_filter in Hd as [Hk Hd]. unfold test_details in Hd.
    rewrite elem_of_unique, list_elem_of_fmap in Hd.
    destruct Hd as (r & -> & Hr). injection Hkey as <-. by rewrite <- Hk.
Qed.

Lemma filter_key_merge (df : list record) (fl : list flaky) (f : flaky) :
  NoDup (f_test_id <$> fl) → f ∈ fl →
  (∀ m, m ∈ merged_lines (test_details df) f →
        verdict_key (select_columns m) = Some (f_test_id f)) →
  filter (λ v, verdict_key v = Some (f_test_id f))
    (select_columns <$> (fl ≫= merged_lines (test_details df))) =
  select_columns <$> merged_lines (test_details df) f.
Proof.
  intros Hnd Hf Hown. induction fl as [|x fl IH]; [by apply elem_of_nil in Hf |].
  rewrite fmap_cons in Hnd. apply NoDup_cons in Hnd as [Hx Hnd].
  rewrite bind_cons, fmap_app, filter_app.
  apply elem_of_cons in Hf as [->|Hf].
  - rewrite filter_all, filter_none; [by rewrite app_nil_r | |].
    + intros v Hv Hkey. apply list_elem_of_fmap in Hv as (m & -> & Hm).
      apply list_elem_of_bind in Hm as (y & Hm & Hy).
      apply (merged_line_key df y m _ Hm) in Hkey.
      apply Hx. rewrite <- Hkey. apply list_elem_of_fmap. eauto.
    + intros v Hv. apply list_elem_of_fmap in Hv as (m & -> & Hm). auto.
  - rewrite filter_none, IH; [done | done | done |].
    intros v Hv Hkey. apply list_elem_of_fmap in Hv as (m & -> & Hm).
    apply (merged_line_key df x m _ Hm) in Hkey.
    apply Hx. rewrite Hkey. apply list_elem_of_fmap. eauto.
Qed.

Lemma NoDup_all_equal {A} (l : list A) :
  NoDup l → (∀ x y, x ∈ l → y ∈ l → x = y) → length l ≤ 1.
Proof.
  intros Hnd Heq. destruct l as [|a [|b l]]; simpl; [lia | lia |].
  exfalso. apply NoDup_cons in Hnd as [Ha _]. apply Ha.
  rewrite (Heq a b); [left | left | right; left].
Qed.

(** The lines of one identity.  For a flaky test identity the returned
    frame holds one line per distinct (project, test_name, outcome)
    among the records of its group, in order of first appearance, all
    with the environment lists of that identity: at least one line,
    and exactly one when the records of the group agree on project,
    test_name and outcome. *)
Theorem verdict_rows_per_identity (df : list record) (k : string) :
  k ∈ f_test_id <$> flaky_tests df →
  (∃ f, f ∈ flaky_tests df ∧ f_test_id f = k ∧
        filter (λ v, verdict_key v = Some k) (result df) =
          (λ d, select_columns (f, Some d)) <$>
            unique (detail_of <$> filter (λ r, test_id r = k) df)) ∧
  1 ≤ length (filter (λ v, verdict_key v = Some k) (result df)) ∧
  ((∀ r r', r ∈ df → r' ∈ df → test_id r = k → test_id r' = k →
      project r = project r' ∧ test_name r = test_name r' ∧
      outcome r = outcome r') →
   length (filter (λ v, verdict_key v = Some k) (result df)) = 1).
Proof.
  intros Hk. apply list_elem_of_fmap in Hk as (f & -> & Hf).
  assert (filter (λ v, verdict_key v = Some (f_test_id f)) (result df) =
          (λ d, select_columns (f, Some d)) <$>
            unique (detail_of <$> filter (λ r, test_id r = f_test_id f) df))
    as Hrows.
  { rewrite result_unfold. unfold merge_left.
    rewrite (filter_key_merge df _ f (NoDup_flaky_tests df) Hf).
    - rewrite merge_row_flaky by done. rewrite <- list_fmap_compose.
      unfold test_details. rewrite filter_unique, filter_fmap_comm. done.
    - intros m Hm. rewrite merge_row_flaky in Hm by done.
      apply list_elem_of_fmap in Hm as (d & -> & Hd).
      apply list_elem_of_filter in Hd as [Hkd Hd]. unfold test_details in Hd.
      rewrite elem_of_unique, list_elem_of_fmap in Hd.
      destruct Hd as (r & -> & Hr). cbn. by rewrite <- Hkd. }
  destruct (flaky_has_record df f Hf) as (r0 & Hr0 & Hk0).
  assert (detail_of r0 ∈
            unique (detail_of <$> filter (λ r, test_id r = f_test_id f) df))
    as Hin.
  { rewrite elem_of_unique, list_elem_of_fmap. exists r0. split; [done |].
    by apply list_elem_of_filter. }
  rewrite Hrows, length_fmap. split; [eauto |]. split.
  - destruct (unique _); [by apply elem_of_nil in Hin | simpl; lia].
  - intros Hagree. apply Nat.le_antisymm.
    + apply NoDup_all_equal; [apply NoDup_unique |].
      assert (∀ d, d ∈ unique (detail_of <$>
                filter (λ r, test_id r = f_test_id f) df) → d = detail_of r0)
        as Hone.
      { intros d Hd. rewrite elem_of_unique, list_elem_of_fmap in Hd.
        destruct Hd as (r & -> & Hr).
        apply list_elem_of_filter in Hr as [Hkr Hr].
        destruct (Hagree r r0 Hr Hr0 Hkr Hk0) as (Hp & Ht & Ho).
        unfold detail_of. by rewrite Hkr, Hk0, Hp, Ht, Ho. }
      intros x y Hx Hy. by rewrite (Hone x Hx), (Hone y Hy).
    + destruct (unique _); [by apply elem_of_nil in Hin | simpl; lia].
Qed.

Lemma verdict_rows_per_identity_witness :
  (∃ f, f ∈ flaky_tests two_outcomes ∧ f_test_id f = "p2::t2" ∧
        filter (λ v, verdict_key v = Some "p2::t2") (result two_outcomes) =
          (λ d, select_columns (f, Some d)) <$>
            unique (detail_of <$>
                      filter (λ r, test_id r = "p2::t2") two_outcomes)) ∧
  1 ≤ length (filter (λ v, verdict_key v = Some "p2::t2")
                (result two_outcomes)) ∧
  ((∀ r r', r ∈ two_outcomes → r' ∈ two_outcomes →
      test_id r = "p2::t2" → test_id r' = "p2::t2" →
      project r = project r' ∧ test_name r = test_name r' ∧
      outcome r = outcome r') →
   length (filter (λ v, verdict_key v = Some "p2::t2")
             (result two_outcomes)) = 1).
Proof.
  apply (verdict_rows_per_identity two_outcomes "p2::t2").
  apply (bool_decide_eq_true_1 _). vm_compute. reflexivity.
Defined.

(** C2: one line per flaky test identity is what the code breaks.  A
    flaky identity recorded with two outcomes gets two lines in the
    returned frame, one per outcome; the frame then has three lines for
    the two entries of [flaky_tests], and its number of lines is what
    line 112 reports as the number of flaky tests. *)
Lemma differing_outcomes_two_rows :
  "p1::t1" ∈ f_test_id <$> flaky_tests two_outcomes ∧
  filter (λ v, verdict_key v = Some "p1::t1") (result two_outcomes) =
    [ Verdict (Some "p1") (Some "t1") (Some "failed")
        ["linux"; "mac"] ["windows"] 2 1;
      Verdict (Some "p1") (Some "t1") (Some "error")
        ["linux"; "mac"] ["windows"] 2 1 ] ∧
  length (flaky_tests two_outcomes) = 2 ∧
  length (result two_outcomes) = 3.
Proof.
  split; [| by vm_compute].
  apply (bool_decide_eq_true_1 _). vm_compute. reflexivity.
Qed.

(** X20. Among records whose project names hold no colon, equal
    test_id means equal project and equal test name. *)
Lemma test_id_inj_colon_free (r1 r2 : record) :
  free_of ":" (project r1) = true → free_of ":" (project r2) = true →
  test_id r1 = test_id r2 →
  project r1 = project r2 ∧ test_name r1 = test_name r2.
Proof.
  unfold test_id. generalize (test_name r1) (test_name r2).
  generalize (project r2). induction (project r1) as [|c p1 IH];
    intros [|c' p2] t1 t2 H1 H2 Heq; simpl in *.
  - injection Heq as ->. done.
  - injection Heq as <- _. by rewrite Ascii.eqb_refl in H2.
  - injection Heq as -> _. by rewrite Ascii.eqb_refl in H1.
  - injection Heq as -> Heq.
    apply andb_prop in H1 as [_ H1]. apply andb_prop in H2 as [_ H2].
    destruct (IH p2 t1 t2 H1 H2 Heq) as [-> ->]. done.
Qed.

(** C1: the key is not injective.  Project "a::b" with test "c" and
    project "a" with test "b::c" get the same test_id; the classifier
    puts their records in one group, which then covers both environments
    of the run, so neither test is reported although each was seen in
    one environment only. *)
Theorem test_id_collision :
  test_id (Rec "a::b" "c" "failed" None "linux") =
    test_id (Rec "a" "b::c" "failed" None "mac") ∧
  ("a::b", "c") ≠ ("a", "b::c") ∧
  test_environments colliding = [("a::b::c", {["linux"; "mac"]})] ∧
  result colliding = [].
Proof.
  split; [reflexivity |]. split; [discriminate |].
  split; by vm_compute.
Qed.

End InterpretProperties.

(** ** More on the extractor *)

Section ColetaExtras.
Import PyStr Coleta.

Ltac run_case H :=
  match type of H with
  | context [mbind _ ?m] =>
      let E := fresh "E" in
      destruct m eqn:E; [rewrite bind_Done in H | discriminate H]
  end.

Lemma get_Done_inv (o : json) (k : string) (d v : json) :
  Py.get o k d = Done v →
  ∃ fields, o = JObj fields ∧ v = default d (Py.assoc k fields).
Proof. destruct o; try discriminate. intros [= <-]. eauto. Qed.

Lemma process_collector_inv project environment c rows :
  process_collector project environment c = Done rows →
  rows = if failed_collector c
         then [ Row project (collector_nodeid c) (JStr "collection_error")
                  JNull environment ]
         else [].
Proof.
  unfold process_collector. intros H. run_case H.
  apply get_Done_inv in E as (fields & -> & ->). cbn [failed_collector].
  destruct (Py.eq_str _ "failed"); [| by inversion H].
  cbn in H. by inversion H.
Qed.

Lemma process_collectors_Done project environment collectors acc rows :
  process_collectors project environment collectors acc = Done rows →
  rows = acc ++
    ((λ c, Row project (collector_nodeid c) (JStr "collection_error")
             JNull environment)
       <$> filter (λ c, failed_collector c = true) collectors).
Proof.
  revert acc rows. induction collectors as [|c cs IH]; intros acc rows H.
  - inversion H. by rewrite app_nil_r.
  - cbn [process_collectors] in H. run_case H.
    apply process_collector_inv in E as ->. apply IH in H as ->.
    rewrite filter_cons. destruct (failed_collector c) eqn:Ec.
    + rewrite decide_True by done. by rewrite <- app_assoc.
    + rewrite decide_False by (by intros ?). by rewrite app_nil_r.
Qed.

(** X1. The collectors of a report add, in order, one row per collector
    whose outcome is "failed" and nothing for the others; each such row
    has outcome collection_error, no line number, the collector's nodeid
    (or "<unknown>" when it has none) and the project and environment
    of the call. *)
Theorem collector_rows project environment collectors acc rows :
  process_collectors project environment collectors acc = Done rows →
  ∃ new,
    rows = acc ++ new ∧
    new = (λ c, Row project (collector_nodeid c) (JStr "collection_error")
                  JNull environment)
            <$> filter (λ c, failed_collector c = true) collectors ∧
    Forall (λ r, Coleta.outcome r = JStr "collection_error" ∧
                 Coleta.lineno r = JNull) new ∧
    length new ≤ length collectors.
Proof.
  intros H. apply process_collectors_Done in H as ->.
  eexists. split; [done |]. split; [done |]. split.
  - apply Forall_fmap. by apply Forall_true.
  - rewrite length_fmap. apply length_filter.
Qed.

Lemma collector_rows_witness :
  ∃ new,
    [ Row "p" (JStr "tests/a.py") (JStr "passed") JNull "linux";
      Row "p" (JStr "<unknown>") (JStr "collection_error") JNull "linux" ] =
    [ Row "p" (JStr "tests/a.py") (JStr "passed") JNull "linux" ] ++ new ∧
    new = (λ c, Row "p" (collector_nodeid c) (JStr "collection_error")
                  JNull "linux")
            <$> filter (λ c, failed_collector c = true)
                  [ JObj [("outcome", JStr "passed"); ("nodeid", JStr "x")];
                    JObj [("outcome", JStr "failed")] ] ∧
    Forall (λ r, Coleta.outcome r = JStr "collection_error" ∧
                 Coleta.lineno r = JNull) new ∧
    length new ≤ 2.
Proof.
  apply (collector_rows "p" "linux"
           [ JObj [("outcome", JStr "passed"); ("nodeid", JStr "x")];
             JObj [("outcome", JStr "failed")] ]
           [ Row "p" (JStr "tests/a.py") (JStr "passed") JNull "linux" ]).
  reflexivity.
Defined.

Lemma stage_row_stamped project environment test nodeid stage_data rows :
  stage_row project environment test nodeid stage_data = Done rows →
  Forall (λ r, Coleta.project r = project ∧
               Coleta.environment r = environment ∧
               Coleta.test_name r = nodeid) rows.
Proof.
  unfold stage_row. intros H. do 4 run_case H. inversion H.
  by repeat constructor.
Qed.

Lemma process_test_stamped project environment test rows :
  process_test project environment test = Done rows →
  Forall (λ r, Coleta.project r = project ∧
               Coleta.environment r = environment) rows.
Proof.
  unfold process_test. intros H. run_case H. revert H.
  generalize stages. intros todo. induction todo as [|stage rest IH];
    intros H.
  - inversion H. constructor.
  - cbn [scan_stages] in H. run_case H.
    match type of H with context [Py.truthy ?d] => destruct (Py.truthy d) end.
    + apply stage_row_stamped in H. eapply Forall_impl; [exact H |].
      intros r (? & ? & ?). done.
    + by apply IH.
Qed.

Lemma process_tests_inv project environment tests acc rows :
  process_tests project environment tests acc = Done rows →
  ∃ new, rows = acc ++ new ∧ length new ≤ length tests ∧
         Forall (λ r, Coleta.project r = project ∧
                      Coleta.environment r = environment) new.
Proof.
  revert acc rows. induction tests as [|test rest IH]; intros acc rows H.
  - inversion H. exists []. by rewrite app_nil_r.
  - cbn [process_tests] in H. run_case H.
    pose proof (process_test_length _ _ _ _ E) as Hlen.
    apply process_test_stamped in E.
    apply IH in H as (new & -> & Hn & Hall). exists (a ++ new).
    rewrite app_assoc, length_app. split; [done |]. split; [simpl; lia |].
    by apply Forall_app.
Qed.

Lemma process_json_Done loaded project environment rows :
  process_json loaded project environment = Done rows →
  ∃ fields tests collectors test_rows,
    loaded = Done (JObj fields) ∧
    Py.iter (default (JArr []) (Py.assoc "tests" fields)) = Done tests ∧
    Py.iter (default (JArr []) (Py.assoc "collectors" fields))
      = Done collectors ∧
    process_tests project environment tests [] = Done test_rows ∧
    rows = test_rows ++
      ((λ c, Row project (collector_nodeid c) (JStr "collection_error")
               JNull environment)
         <$> filter (λ c, failed_collector c = true) collectors) ∧
    length rows ≤ length tests + length collectors ∧
    Forall (λ r, Coleta.project r = project ∧
                 Coleta.environment r = environment) rows.
Proof.
  unfold process_json. intros H. run_case H. run_case H.
  match goal with
  | E : Py.get _ "tests" _ = Done _ |- _ =>
      apply get_Done_inv in E as (fields & -> & ->)
  end.
  do 4 run_case H.
  match goal with
  | E : Py.get _ "collectors" _ = Done _ |- _ =>
      apply get_Done_inv in E as (fields' & [= <-] & ->)
  end.
  apply process_collectors_Done in H as ->.
  match goal with
  | E : process_tests _ _ ?ts [] = Done ?tr, E' : Py.iter _ = Done ?cs |- _ =>
      exists fields, ts, cs, tr;
      pose proof (process_tests_inv _ _ _ _ _ E) as (new & Hnew & Hlen & Hall);
      pose proof (length_filter (λ c, failed_collector c = true) cs) as Hf
  end.
  simpl in Hnew. subst. repeat split; try done.
  - rewrite length_app, length_fmap. lia.
  - apply Forall_app. split; [done |]. apply Forall_fmap.
    by apply Forall_true.
Qed.

Lemma process_test_object project environment items :
  process_test project environment (JObj items) =
    match spec_first_populated items with
    | Some stage_data =>
        stage_row project environment (JObj items)
          (default JNull (Py.assoc "nodeid" items)) stage_data
    | None => Done []
    end.
Proof.
  unfold process_test, spec_first_populated. simpl.
  destruct (Py.truthy (default JNull (Py.assoc "setup" items))); [done |].
  destruct (Py.truthy (default JNull (Py.assoc "call" items))); [done |].
  by destruct (Py.truthy (default JNull (Py.assoc "teardown" items))).
Qed.

(** The row a populated stage gives, when building it does not raise. *)
Lemma stage_row_Done project environment items nodeid stage_data new :
  stage_row project environment (JObj items) nodeid stage_data = Done new →
  ∃ stage crash,
    stage_data = JObj stage ∧
    default (JObj []) (Py.assoc "crash" stage) = JObj crash ∧
    new = [ Row project nodeid (default JNull (Py.assoc "outcome" stage))
              (default (default JNull (Py.assoc "lineno" items))
                 (Py.assoc "lineno" crash))
              environment ].
Proof.
  unfold stage_row. intros H. run_case H.
  match goal with
  | E : Py.get _ "outcome" _ = Done _ |- _ =>
      apply get_Done_inv in E as (stage & -> & ->)
  end.
  cbn [Py.get] in H. rewrite !bind_Done in H. run_case H.
  match goal with
  | E : Py.get _ "lineno" _ = Done _ |- _ =>
      apply get_Done_inv in E as (crash & Hcrash & ->)
  end.
  injection H as <-. by exists stage, crash.
Qed.

(** What one test of the report contributes. *)
Lemma process_test_Done project environment test new :
  process_test project environment test = Done new →
  ∃ items,
    test = JObj items ∧
    match spec_first_populated items with
    | None => new = []
    | Some stage_data =>
        ∃ stage crash,
          stage_data = JObj stage ∧
          default (JObj []) (Py.assoc "crash" stage) = JObj crash ∧
          new = [ Row project (default JNull (Py.assoc "nodeid" items))
                    (default JNull (Py.assoc "outcome" stage))
                    (default (default JNull (Py.assoc "lineno" items))
                       (Py.assoc "lineno" crash))
                    environment ]
    end.
Proof.
  intros H. destruct test as [| | | | |items];
    try (unfold process_test in H; discriminate H).
  exists items. split; [done |]. rewrite process_test_object in H.
  destruct (spec_first_populated items) as [stage_data|].
  - by apply stage_row_Done in H.
  - by injection H as <-.
Qed.

Lemma process_tests_per_test project environment tests acc rows :
  process_tests project environment tests acc = Done rows →
  ∃ per_test,
    Forall2 (λ test new, process_test project environment test = Done new)
      tests per_test ∧
    rows = acc ++ concat per_test.
Proof.
  revert acc rows. induction tests as [|test rest IH]; intros acc rows H.
  - injection H as <-. exists []. split; [constructor |].
    by rewrite app_nil_r.
  - cbn [process_tests] in H. run_case H.
    apply IH in H as (per_test & Hall & ->).
    match goal with
    | E : process_test _ _ test = Done ?new |- _ =>
        exists (new :: per_test); split; [by constructor |]
    end.
    cbn [concat]. by rewrite app_assoc.
Qed.

(** X2. The rows of a report are the rows of its tests, in the order of
    the tests, followed by the rows of its failed collectors, in order.
    Every test is an object and gives no row when none of its stages is
    populated, and otherwise the one row of its first populated stage:
    the test's nodeid, the stage's outcome, and as lineno that of the
    stage's crash object or else that of the test.  There are at most
    as many rows as tests plus collectors, and every one carries the
    project and the environment given to the call. *)
Theorem process_json_rows loaded project environment rows :
  process_json loaded project environment = Done rows →
  ∃ fields tests collectors per_test,
    loaded = Done (JObj fields) ∧
    Py.iter (default (JArr []) (Py.assoc "tests" fields)) = Done tests ∧
    Py.iter (default (JArr []) (Py.assoc "collectors" fields))
      = Done collectors ∧
    Forall2
      (λ test new,
         ∃ items,
           test = JObj items ∧
           match spec_first_populated items with
           | None => new = []
           | Some stage_data =>
               ∃ stage crash,
                 stage_data = JObj stage ∧
                 default (JObj []) (Py.assoc "crash" stage) = JObj crash ∧
                 new = [ Row project (default JNull (Py.assoc "nodeid" items))
                           (default JNull (Py.assoc "outcome" stage))
                           (default (default JNull (Py.assoc "lineno" items))
                              (Py.assoc "lineno" crash))
                           environment ]
           end)
      tests per_test ∧
    rows = concat per_test ++
      ((λ c, Row project (collector_nodeid c) (JStr "collection_error")
               JNull environment)
         <$> filter (λ c, failed_collector c = true) collectors) ∧
    length rows ≤ length tests + length collectors ∧
    Forall (λ r, Coleta.project r = project ∧
                 Coleta.environment r = environment) rows.
Proof.
  intros H.
  apply process_json_Done in H
    as (fields & tests & collectors & test_rows
        & -> & Ht & Hc & Hrows & -> & Hlen & Hall).
  apply process_tests_per_test in Hrows as (per_test & Hper & ->).
  exists fields, tests, collectors, per_test.
  repeat split; try done.
  eapply Forall2_impl; [exact Hper |].
  intros test new. apply process_test_Done.
Qed.

Lemma process_json_rows_witness :
  ∃ fields tests collectors per_test,
    Done (JObj [("tests", JArr [
                   JObj [("nodeid", JStr "a"); ("lineno", JNum 3);
                         ("setup", JObj [("outcome", JStr "passed")]);
                         ("call", JObj [("outcome", JStr "failed");
                                        ("crash", JObj [("lineno", JNum 7)])])];
                   JObj [("nodeid", JStr "b")];
                   JObj [("nodeid", JStr "c"); ("lineno", JNum 5);
                         ("call", JObj [("outcome", JStr "failed");
                                        ("crash", JObj [("lineno", JNum 9)])])]]);
                ("collectors", JArr [JObj [("outcome", JStr "failed");
                   ("nodeid", JStr "m.py")]])]) = Done (JObj fields) ∧
    Py.iter (default (JArr []) (Py.assoc "tests" fields)) = Done tests ∧
    Py.iter (default (JArr []) (Py.assoc "collectors" fields))
      = Done collectors ∧
    Forall2
      (λ test new,
         ∃ items,
           test = JObj items ∧
           match spec_first_populated items with
           | None => new = []
           | Some stage_data =>
               ∃ stage crash,
                 stage_data = JObj stage ∧
                 default (JObj []) (Py.assoc "crash" stage) = JObj crash ∧
                 new = [ Row "p" (default JNull (Py.assoc "nodeid" items))
                           (default JNull (Py.assoc "outcome" stage))
                           (default (default JNull (Py.assoc "lineno" items))
                              (Py.assoc "lineno" crash))
                           "mac" ]
           end)
      tests per_test ∧
    [ Row "p" (JStr "a") (JStr "passed") (JNum 3) "mac";
      Row "p" (JStr "c") (JStr "failed") (JNum 9) "mac";
      Row "p" (JStr "m.py") (JStr "collection_error") JNull "mac" ] =
    concat per_test ++
      ((λ c, Row "p" (collector_nodeid c) (JStr "collection_error")
               JNull "mac")
         <$> filter (λ c, failed_collector c = true) collectors) ∧
    length [ Row "p" (JStr "a") (JStr "passed") (JNum 3) "mac";
             Row "p" (JStr "c") (JStr "failed") (JNum 9) "mac";
             Row "p" (JStr "m.py") (JStr "collection_error") JNull "mac" ]
      ≤ length tests + length collectors ∧
    Forall (λ r, Coleta.project r = "p" ∧ Coleta.environment r = "mac")
      [ Row "p" (JStr "a") (JStr "passed") (JNum 3) "mac";
        Row "p" (JStr "c") (JStr "failed") (JNum 9) "mac";
        Row "p" (JStr "m.py") (JStr "collection_error") JNull "mac" ].
Proof.
  apply (process_json_rows
    (Done (JObj [("tests", JArr [
                   JObj [("nodeid", JStr "a"); ("lineno", JNum 3);
                         ("setup", JObj [("outcome", JStr "passed")]);
                         ("call", JObj [("outcome", JStr "failed");
                                        ("crash", JObj [("lineno", JNum 7)])])];
                   JObj [("nodeid", JStr "b")];
                   JObj [("nodeid", JStr "c"); ("lineno", JNum 5);
                         ("call", JObj [("outcome", JStr "failed");
                                        ("crash", JObj [("lineno", JNum 9)])])]]);
                 ("collectors", JArr [JObj [("outcome", JStr "failed");
                   ("nodeid", JStr "m.py")]])])) "p" "mac").
  reflexivity.
Defined.

Lemma get_Raised_inv (o : json) (k : string) (d : json) (exn : string) :
  Py.get o k d = Raised exn → exn = "AttributeError".
Proof. destruct o; simpl; congruence. Qed.

Ltac raised_case H :=
  match type of H with
  | context [mbind _ ?m] =>
      let E := fresh "E" in
      destruct m eqn:E;
      [rewrite bind_Done in H
      | injection H as <-; try (by eapply get_Raised_inv)]
  end.

Lemma process_test_Raised_inv project environment test exn :
  process_test project environment test = Raised exn →
  exn = "AttributeError".
Proof.
  unfold process_test. intros H. raised_case H. revert H.
  generalize stages. intros todo. induction todo as [|stage rest IH];
    intros H; [discriminate |].
  cbn [scan_stages] in H. raised_case H.
  match type of H with context [Py.truthy ?d] => destruct (Py.truthy d) end;
    [| by apply IH].
  unfold stage_row in H. do 4 raised_case H. discriminate.
Qed.

Lemma process_tests_malformed project environment tests acc :
  Exists (λ t, ∀ fields, t ≠ JObj fields) tests →
  process_tests project environment tests acc = Raised "AttributeError".
Proof.
  intros Hex. revert acc. induction Hex as [t rest Ht|t rest Hex IH];
    intros acc; cbn [process_tests].
  - destruct t; try reflexivity. by destruct (Ht fields).
  - destruct (process_test project environment t) as [new|exn] eqn:E.
    + rewrite bind_Done. apply IH.
    + by rewrite (process_test_Raised_inv _ _ _ _ E).
Qed.

Lemma process_json_object fields project environment :
  process_json (Done (JObj fields)) project environment =
    (tests ← Py.iter (default (JArr []) (Py.assoc "tests" fields));
     rows ← process_tests project environment tests [];
     collectors ← Py.iter (default (JArr []) (Py.assoc "collectors" fields));
     process_collectors project environment collectors rows).
Proof. reflexivity. Qed.

(** X3. What [process_json] does with a report of the wrong shape: a
    document that is not an object makes it raise; so does one test
    entry that is not an object, wherever it stands in the list and
    whatever the other tests and the collectors hold, so no row is
    returned for the report; an object without the keys tests and
    collectors gives no row and no error. *)
Theorem process_json_malformed project environment :
  (∀ data, (∀ fields, data ≠ JObj fields) →
     process_json (Done data) project environment = Raised "AttributeError") ∧
  (∀ fields tests,
     Py.assoc "tests" fields = Some (JArr tests) →
     Exists (λ t, ∀ fields, t ≠ JObj fields) tests →
     process_json (Done (JObj fields)) project environment
       = Raised "AttributeError") ∧
  (∀ fields,
     Py.assoc "tests" fields = None → Py.assoc "collectors" fields = None →
     process_json (Done (JObj fields)) project environment = Done []).
Proof.
  split; [| split].
  - intros data Hdata. destruct data; try reflexivity. by destruct (Hdata fields).
  - intros fields tests Htests Hex. rewrite process_json_object, Htests.
    change (Py.iter (default (JArr []) (Some (JArr tests))))
      with (Done tests).
    rewrite bind_Done. by rewrite process_tests_malformed.
  - intros fields Ht Hc. by rewrite process_json_object, Ht, Hc.
Qed.

Lemma process_json_malformed_witness :
  process_json (Done (JArr [])) "p" "linux" = Raised "AttributeError" ∧
  process_json
    (Done (JObj [("tests", JArr [
       JObj [("nodeid", JStr "a"); ("call", JObj [("outcome", JStr "failed")])];
       JStr "not a test"])]))
    "p" "linux" = Raised "AttributeError" ∧
  process_json (Done (JObj [("created", JNum 1)])) "p" "linux" = Done [].
Proof.
  split; [| split].
  - apply (proj1 (process_json_malformed "p" "linux")). discriminate.
  - apply (proj1 (proj2 (process_json_malformed "p" "linux")) _
      [ JObj [("nodeid", JStr "a"); ("call", JObj [("outcome", JStr "failed")])];
        JStr "not a test" ]).
    + reflexivity.
    + right. left. discriminate.
  - apply (proj2 (proj2 (process_json_malformed "p" "linux"))); reflexivity.
Defined.

(** X4. The line number of a test row: the lineno of the stage's crash
    object when that key is there, be it null; the test's own lineno
    (null when it has none) when the stage has no crash or a crash
    without lineno; and a crash that is not an object, null included,
    makes the call raise. *)
Theorem stage_row_lineno project environment nodeid
    (test_fields stage_fields : list (string * json)) :
  let test := JObj test_fields in
  let row l := Row project nodeid
                 (default JNull (Py.assoc "outcome" stage_fields)) l
                 environment in
  let own := default JNull (Py.assoc "lineno" test_fields) in
  (Py.assoc "crash" stage_fields = None →
   stage_row project environment test nodeid (JObj stage_fields)
     = Done [row own]) ∧
  (∀ crash_fields,
     Py.assoc "crash" stage_fields = Some (JObj crash_fields) →
     stage_row project environment test nodeid (JObj stage_fields)
       = Done [row (default own (Py.assoc "lineno" crash_fields))]) ∧
  (∀ crash,
     Py.assoc "crash" stage_fields = Some crash →
     (∀ fields, crash ≠ JObj fields) →
     stage_row project environment test nodeid (JObj stage_fields)
       = Raised "AttributeError").
Proof.
  cbv zeta. unfold stage_row. cbn [Py.get]. rewrite !bind_Done.
  split; [| split].
  - by intros ->.
  - by intros crash_fields ->.
  - intros crash -> Hcrash. destruct crash; try reflexivity.
    by destruct (Hcrash fields).
Qed.

Lemma stage_row_lineno_witness :
  stage_row "p" "linux" (JObj [("lineno", JNum 3)]) (JStr "t")
    (JObj [("outcome", JStr "failed"); ("crash", JObj [("lineno", JNull)])])
  = Done [Row "p" (JStr "t") (JStr "failed") JNull "linux"] ∧
  stage_row "p" "linux" (JObj [("lineno", JNum 3)]) (JStr "t")
    (JObj [("outcome", JStr "failed"); ("crash", JNull)])
  = Raised "AttributeError".
Proof.
  split.
  - apply (proj1 (proj2 (stage_row_lineno "p" "linux" (JStr "t")
      [("lineno", JNum 3)]
      [("outcome", JStr "failed"); ("crash", JObj [("lineno", JNull)])]))
      [("lineno", JNull)]).
    reflexivity.
  - apply (proj2 (proj2 (stage_row_lineno "p" "linux" (JStr "t")
      [("lineno", JNum 3)]
      [("outcome", JStr "failed"); ("crash", JNull)])) JNull).
    + reflexivity.
    + discriminate.
Defined.

Lemma main_loop_acc (subdirs : list subdir) (out : list row)
    (log : list message) :
  main_loop subdirs out log =
    MainState (out ++ written (main subdirs)) (log ++ printed (main subdirs))
      (aborted (main subdirs)).
Proof.
  unfold main. revert out log.
  induction subdirs as [|sd rest IH]; intros out log; simpl.
  - by rewrite !app_nil_r.
  - destruct (process_subdir sd) as [[rows msgs]|exn]; simpl.
    + rewrite (IH (out ++ rows) (log ++ msgs)), (IH rows msgs). simpl.
      by rewrite !app_assoc.
    + by rewrite !app_nil_r.
Qed.

Lemma main_cons (sd : subdir) (rest : list subdir) :
  main (sd :: rest) =
    match process_subdir sd with
    | Done (rows, msgs) =>
        MainState (rows ++ written (main rest)) (msgs ++ printed (main rest))
          (aborted (main rest))
    | Raised exn => MainState [] [] (Some exn)
    end.
Proof.
  unfold main at 1. simpl.
  destruct (process_subdir sd) as [[rows msgs]|exn]; [| done].
  by rewrite main_loop_acc.
Qed.

Lemma main_app_state (a b : list subdir) :
  main (a ++ b) =
    match aborted (main a) with
    | None =>
        MainState (written (main a) ++ written (main b))
          (printed (main a) ++ printed (main b)) (aborted (main b))
    | Some _ => main a
    end.
Proof.
  induction a as [|sd a IH].
  - simpl. by destruct (main b).
  - rewrite <- app_comm_cons, !main_cons.
    destruct (process_subdir sd) as [[rows msgs]|exn]; simpl; [| done].
    rewrite IH. destruct (aborted (main a)) eqn:Ea; simpl.
    + by rewrite Ea.
    + by rewrite !app_assoc.
Qed.

(** X5. Runs of [main] compose: when the run over a first list of
    directories ends without exception, the run over that list followed
    by a second one writes the rows of the first and then those of the
    second, prints the lines of both in that order and ends as the
    second does; when the first run is ended by an exception, the
    second list is not touched. *)
Theorem main_app (a b : list subdir) :
  (aborted (main a) = None →
   written (main (a ++ b)) = written (main a) ++ written (main b) ∧
   printed (main (a ++ b)) = printed (main a) ++ printed (main b) ∧
   aborted (main (a ++ b)) = aborted (main b)) ∧
  (aborted (main a) ≠ None → main (a ++ b) = main a).
Proof.
  rewrite main_app_state. destruct (aborted (main a)); split; try done.
Qed.

Lemma main_app_witness :
  written (main ([ Subdir "b/p1" true (Some "b/p1/m.csv") (Some "b/p1/r.json")
                     (Done [["h"]; ["p1"; "linux"]])
                     (Done (JObj [("collectors",
                        JArr [JObj [("outcome", JStr "failed")]])])) ] ++
                 [ Subdir "b/p2" true (Some "b/p2/m.csv") (Some "b/p2/r.json")
                     (Done [["h"]; ["p2"; "mac"]])
                     (Done (JObj [("collectors",
                        JArr [JObj [("outcome", JStr "failed")]])])) ])) =
  [ Row "p1" (JStr "<unknown>") (JStr "collection_error") JNull "linux" ] ++
  [ Row "p2" (JStr "<unknown>") (JStr "collection_error") JNull "mac" ].
Proof.
  refine (proj1 (proj1 (main_app _ _) _)). reflexivity.
Defined.




Lemma main_skip (pre post : list subdir) (sd : subdir) (msgs : list message) :
  process_subdir sd = Done ([], msgs) →
  written (main (pre ++ sd :: post)) = written (main (pre ++ post)) ∧
  aborted (main (pre ++ sd :: post)) = aborted (main (pre ++ post)).
Proof.
  intros Hsd. rewrite !main_app_state, main_cons, Hsd.
  by destruct (aborted (main pre)).
Qed.

(** X7. An entry of the base directory that is not a directory, a
    directory in which no .csv or no .json file was found, and a
    directory whose metadata row 1 has a blank first field are passed
    over before any report is read: whatever the files hold, readable
    or not, the rows written and the way the run ends are those of the
    run without that entry. *)
Theorem main_ignores_skipped (pre post : list subdir) (sd : subdir) :
  is_dir sd = false ∨ csv_file sd = None ∨ json_file sd = None ∨
  (∃ header second rest,
     csv_lines sd = Done (header :: second :: rest) ∧
     strip (hd "" (split_on "," (join "," second))) = "") →
  (∃ msgs, process_subdir sd = Done ([], msgs)) ∧
  written (main (pre ++ sd :: post)) = written (main (pre ++ post)) ∧
  aborted (main (pre ++ sd :: post)) = aborted (main (pre ++ post)).
Proof.
  intros H. assert (∃ msgs, process_subdir sd = Done ([], msgs)) as [msgs Hsd].
  { unfold process_subdir. destruct (is_dir sd); [| by eexists].
    cbn [negb].
    destruct (falsy_str (csv_file sd) || falsy_str (json_file sd)) eqn:Ef;
      [by eexists |].
    destruct H as [H|[H|[H|(header & second & rest & Hl & Hblank)]]].
    - done.
    - by rewrite H in Ef.
    - rewrite H in Ef. by rewrite orb_true_r in Ef.
    - rewrite Hl, bind_Done. unfold get_project_info_from_csv.
      cbn [length Nat.ltb Nat.leb nth]. rewrite Hblank. by eexists. }
  split; [eauto |]. by apply (main_skip pre post sd msgs).
Qed.

Lemma main_ignores_skipped_witness :
  written (main [ Subdir "base/notes.txt" false None None
                    (Raised "NotADirectoryError") (Raised "x");
                  Subdir "base/p" true (Some "base/p/m.csv")
                    (Some "base/p/r.json")
                    (Done [["h"]; [" "; "linux"]])
                    (Raised "JSONDecodeError") ]) = [] ∧
  aborted (main [ Subdir "base/notes.txt" false None None
                    (Raised "NotADirectoryError") (Raised "x");
                  Subdir "base/p" true (Some "base/p/m.csv")
                    (Some "base/p/r.json")
                    (Done [["h"]; [" "; "linux"]])
                    (Raised "JSONDecodeError") ]) = None.
Proof.
  refine (proj2 (main_ignores_skipped
    [ Subdir "base/notes.txt" false None None
        (Raised "NotADirectoryError") (Raised "x") ] []
    (Subdir "base/p" true (Some "base/p/m.csv") (Some "base/p/r.json")
       (Done [["h"]; [" "; "linux"]]) (Raised "JSONDecodeError")) _)).
  right. right. right. exists ["h"], [" "; "linux"], []. by split.
Defined.

(** X8. [main] has no handler: when the metadata file of a directory
    cannot be read, or its report cannot be loaded after a project name
    was resolved, the run ends with that exception; the rows of the
    directories before it stay written and the directories after it are
    not processed. *)
Theorem main_stops_at_exception (pre post : list subdir) (sd : subdir)
    (csv jf exn : string) :
  aborted (main pre) = None →
  is_dir sd = true →
  csv_file sd = Some csv → csv ≠ "" → json_file sd = Some jf → jf ≠ "" →
  csv_lines sd = Raised exn ∨
  (∃ lines p env,
     csv_lines sd = Done lines ∧
     get_project_info_from_csv lines = (Some p, env) ∧ p ≠ "" ∧
     json_data sd = Raised exn) →
  main (pre ++ sd :: post) =
    MainState (written (main pre)) (printed (main pre)) (Some exn).
Proof.
  intros Hpre Hdir Hcsv Hc Hjson Hj Hcause.
  assert (process_subdir sd = Raised exn) as Hsd.
  { unfold process_subdir. rewrite Hdir, Hcsv, Hjson. cbn [negb falsy_str].
    apply String.eqb_neq in Hc, Hj. rewrite Hc, Hj. cbn [orb].
    destruct Hcause as [->|(lines & p & env & -> & Hinfo & Hp & Hdata)];
      [done |].
    rewrite bind_Done, Hinfo. cbn [falsy_str].
    apply String.eqb_neq in Hp. rewrite Hp. unfold process_json.
    by rewrite Hdata. }
  rewrite main_app_state, Hpre, main_cons, Hsd. simpl. by rewrite !app_nil_r.
Qed.

Lemma main_stops_at_exception_witness :
  main [ Subdir "b/p1" true (Some "b/p1/m.csv") (Some "b/p1/r.json")
           (Done [["h"]; ["p1"; "linux"]])
           (Done (JObj [("collectors", JArr [JObj [("outcome", JStr "failed")]])]));
         Subdir "b/p2" true (Some "b/p2/m.csv") (Some "b/p2/r.json")
           (Done [["h"]; ["p2"; "mac"]]) (Raised "JSONDecodeError");
         Subdir "b/p3" true (Some "b/p3/m.csv") (Some "b/p3/r.json")
           (Done [["h"]; ["p3"; "mac"]])
           (Done (JObj [("collectors", JArr [JObj [("outcome", JStr "failed")]])])) ]
  = MainState
      [ Row "p1" (JStr "<unknown>") (JStr "collection_error") JNull "linux" ]
      [ Processed "b/p1" 1 ] (Some "JSONDecodeError").
Proof.
  apply (main_stops_at_exception
    [ Subdir "b/p1" true (Some "b/p1/m.csv") (Some "b/p1/r.json")
        (Done [["h"]; ["p1"; "linux"]])
        (Done (JObj [("collectors", JArr [JObj [("outcome", JStr "failed")]])])) ]
    [ Subdir "b/p3" true (Some "b/p3/m.csv") (Some "b/p3/r.json")
        (Done [["h"]; ["p3"; "mac"]])
        (Done (JObj [("collectors", JArr [JObj [("outcome", JStr "failed")]])])) ]
    (Subdir "b/p2" true (Some "b/p2/m.csv") (Some "b/p2/r.json")
       (Done [["h"]; ["p2"; "mac"]]) (Raised "JSONDecodeError"))
    "b/p2/m.csv" "b/p2/r.json" "JSONDecodeError");
    try reflexivity; try discriminate.
  right. exists [["h"]; ["p2"; "mac"]], "p2", (Some "mac").
  repeat split; try reflexivity. discriminate.
Defined.

(** X9. A metadata row 1 that holds one comma-free field names both the
    project and the environment: the two results are that field,
    stripped, and every row extracted for the directory has its
    environment equal to its project. *)
Theorem single_field_row (sd : subdir) header second rest rows msgs :
  csv_lines sd = Done (header :: second :: rest) →
  free_of "," (join "," second) = true →
  process_subdir sd = Done (rows, msgs) →
  get_project_info_from_csv (header :: second :: rest) =
    (Some (strip (join "," second)), Some (strip (join "," second))) ∧
  Forall (λ r, Coleta.project r = strip (join "," second) ∧
               Coleta.environment r = Coleta.project r) rows.
Proof.
  intros Hlines Hfree H.
  assert (get_project_info_from_csv (header :: second :: rest) =
    (Some (strip (join "," second)), Some (strip (join "," second)))) as Hinfo.
  { unfold get_project_info_from_csv. cbn [length Nat.ltb Nat.leb nth].
    by rewrite split_on_free. }
  split; [done |]. unfold process_subdir in H.
  destruct (negb (is_dir sd)); [by inversion H |].
  destruct (falsy_str (csv_file sd) || falsy_str (json_file sd));
    [by inversion H |].
  rewrite Hlines, bind_Done, Hinfo in H.
  destruct (falsy_str (Some (strip (join "," second)))) eqn:Ef;
    [by inversion H |].
  unfold env_or in H. rewrite Ef in H. run_case H. inversion H; subst.
  match goal with
  | E : process_json _ _ _ = Done _ |- _ =>
      apply process_json_Done in E
        as (? & ? & ? & ? & _ & _ & _ & _ & _ & _ & Hall)
  end.
  eapply Forall_impl; [exact Hall |]. by intros r [-> ->].
Qed.

Lemma single_field_row_witness :
  get_project_info_from_csv [["project"]; [" flask "]] =
    (Some "flask", Some "flask") ∧
  Forall (λ r, Coleta.project r = "flask" ∧
               Coleta.environment r = Coleta.project r)
    [Row "flask" (JStr "<unknown>") (JStr "collection_error") JNull "flask"].
Proof.
  apply (single_field_row
    (Subdir "b/p" true (Some "b/p/m.csv") (Some "b/p/r.json")
       (Done [["project"]; [" flask "]])
       (Done (JObj [("collectors", JArr [JObj [("outcome", JStr "failed")]])])))
    ["project"] [" flask "] [] _ [Processed "b/p" 1]); reflexivity.
Defined.

(** X21. The environment of the rows of a directory is the last field
    of metadata row 1, stripped and otherwise unchanged (no letter case
    is folded, no value is checked against mac, linux, windows); only
    when that field is blank is the environment detected from the path
    of the metadata file.  The project is the stripped first field. *)
Theorem process_subdir_stamp (sd : subdir) csv header second rest rows msgs :
  csv_file sd = Some csv →
  csv_lines sd = Done (header :: second :: rest) →
  process_subdir sd = Done (rows, msgs) →
  let fields := split_on "," (join "," second) in
  Forall (λ r,
      Coleta.project r = strip (hd "" fields) ∧
      Coleta.environment r =
        if String.eqb (strip (List.last fields "")) ""
        then detect_environment csv
        else strip (List.last fields "")) rows.
Proof.
  intros Hcsv Hlines H fields. unfold process_subdir in H.
  destruct (negb (is_dir sd)); [by inversion H |].
  destruct (falsy_str (csv_file sd) || falsy_str (json_file sd));
    [by inversion H |].
  rewrite Hlines, bind_Done in H. unfold get_project_info_from_csv in H.
  cbn [length Nat.ltb Nat.leb nth] in H. fold fields in H.
  destruct (falsy_str (Some (strip (hd "" fields)))); [by inversion H |].
  run_case H. inversion H; subst.
  match goal with
  | E : process_json _ _ _ = Done _ |- _ =>
      apply process_json_Done in E
        as (? & ? & ? & ? & _ & _ & _ & _ & _ & _ & Hall)
  end.
  eapply Forall_impl; [exact Hall |]. intros r [-> ->]. split; [done |].
  rewrite Hcsv. unfold env_or, falsy_str. cbn [default].
  by destruct (String.eqb (strip (List.last fields "")) "").
Qed.

Lemma process_subdir_stamp_witness :
  Forall (λ r,
      Coleta.project r = "flask" ∧
      Coleta.environment r = "Ubuntu-22.04")
    [Row "flask" (JStr "<unknown>") (JStr "collection_error") JNull
       "Ubuntu-22.04"].
Proof.
  apply (process_subdir_stamp
    (Subdir "b/p" true (Some "b/p/mac.csv") (Some "b/p/r.json")
       (Done [["project"; "os"]; ["flask"; " Ubuntu-22.04 "]])
       (Done (JObj [("collectors", JArr [JObj [("outcome", JStr "failed")]])])))
    "b/p/mac.csv" ["project"; "os"] ["flask"; " Ubuntu-22.04 "] []
    _ [Processed "b/p" 1]); reflexivity.
Defined.

Lemma endswith_spec (s suffix : string) :
  endswith s suffix = true ↔ ∃ a, s = a +:+ suffix.
Proof.
  induction s as [|c s IH]; cbn [endswith].
  - rewrite orb_false_r, String.eqb_eq. split.
    + intros <-. by exists "".
    + intros [a Ha]. destruct a; [done | discriminate].
  - rewrite orb_true_iff, String.eqb_eq, IH. split.
    + intros [<-|[a ->]]; [by exists "" | by exists (String c a)].
    + intros [[|x a] Ha]; [by left |]. right. exists a. simpl in Ha. congruence.
Qed.

Lemma length_append (a b : string) :
  String.length (a +:+ b) = String.length a + String.length b.
Proof. induction a as [|c a IH]; simpl; [done | by rewrite IH]. Qed.

Lemma append_inj_length (a b x y : string) :
  a +:+ x = b +:+ y → String.length x = String.length y → x = y.
Proof.
  revert b. induction a as [|c a IH]; intros [|d b] H Hlen; simpl in H.
  - done.
  - subst x. simpl in Hlen. rewrite length_append in Hlen. lia.
  - subst y. simpl in Hlen. rewrite length_append in Hlen. lia.
  - injection H as _ H. by apply (IH b).
Qed.

Lemma csv_not_json (file : string) :
  endswith file ".csv" = true → endswith file ".json" = false.
Proof.
  intros Hc. destruct (endswith file ".json") eqn:Hj; [| done].
  apply endswith_spec in Hc as [a Ha]. apply endswith_spec in Hj as [b Hb].
  assert (a +:+ ".csv" = (b +:+ ".") +:+ "json") as H.
  { by rewrite <- Ha, Hb, append_assoc. }
  apply append_inj_length in H; [discriminate | done].
Qed.

Lemma both_found_spec (c j : option string) :
  both_found (c, j) = true → ∃ c' j', c = Some c' ∧ j = Some j'.
Proof.
  destruct c as [c|], j as [j|]; unfold both_found; simpl; intros H;
    try discriminate; try (rewrite andb_false_r in H; discriminate).
  eauto.
Qed.

Lemma scan_files_spec (root : string) (files : list string)
    (st : option string * option string) :
  scan_files root files st =
    (first_of st.1
       (path_join root <$> filter (λ f, endswith f ".csv" = true) files),
     first_of st.2
       (path_join root <$> filter (λ f, endswith f ".json" = true) files)).
Proof.
  revert st. induction files as [|file rest IH]; intros [c j].
  - by destruct c, j.
  - cbn [scan_files fst snd]. rewrite !filter_cons.
    destruct (endswith file ".csv") eqn:Ecsv.
    + rewrite (csv_not_json file Ecsv).
      rewrite decide_True, decide_False by done.
      destruct c as [c|]; cbn [is_none andb].
      * destruct (both_found (Some c, j)) eqn:Eb.
        -- by apply both_found_spec in Eb as (? & j' & _ & ->).
        -- by rewrite IH.
      * destruct (both_found (Some (path_join root file), j)) eqn:Eb.
        -- by apply both_found_spec in Eb as (? & j' & _ & ->).
        -- by rewrite IH.
    + rewrite decide_False by done. cbn [andb].
      destruct (endswith file ".json") eqn:Ejson.
      * rewrite decide_True by done.
        destruct j as [j|]; cbn [is_none andb].
        -- destruct (both_found (c, Some j)) eqn:Eb.
           ++ by apply both_found_spec in Eb as (c' & ? & -> & _).
           ++ by rewrite IH.
        -- destruct (both_found (c, Some (path_join root file))) eqn:Eb.
           ++ by apply both_found_spec in Eb as (c' & ? & -> & _).
           ++ by rewrite IH.
      * rewrite decide_False by done. cbn [andb].
        destruct (both_found (c, j)) eqn:Eb.
        -- by apply both_found_spec in Eb as (c' & j' & -> & ->).
        -- by rewrite IH.
Qed.

Lemma first_of_app (cur : option string) (l1 l2 : list string) :
  first_of cur (l1 ++ l2) = first_of (first_of cur l1) l2.
Proof. destruct cur; [done |]. by destruct l1. Qed.

Lemma walk_files_spec (walk : list (string * list string))
    (st : option string * option string) :
  walk_files walk st =
    (first_of st.1 (candidates ".csv" walk),
     first_of st.2 (candidates ".json" walk)).
Proof.
  revert st. induction walk as [|[root files] rest IH]; intros st.
  - by destruct st as [[c|] [j|]].
  - cbn [walk_files]. unfold candidates. rewrite !bind_cons, !first_of_app.
    rewrite scan_files_spec.
    match goal with |- context [both_found (?c, ?j)] =>
      destruct (both_found (c, j)) eqn:Eb end.
    + by apply both_found_spec in Eb as (c' & j' & -> & ->).
    + by rewrite IH.
Qed.

(** X10. The file search of [main] returns, for the metadata, the path
    of the first file of the walk whose name ends with ".csv" and, for
    the report, the path of the first whose name ends with ".json", and
    nothing for a kind that no file of the walk has; stopping as soon
    as both are found changes neither. *)
Theorem find_files_first (walk : list (string * list string)) :
  find_files walk =
    (head (candidates ".csv" walk), head (candidates ".json" walk)).
Proof. unfold find_files. by rewrite walk_files_spec. Qed.

(** X11. The keyword fallback is handed the whole path of the metadata
    file: when a directory on the way contains "mac", in any case, the
    environment detected is mac, whatever the file is called. *)
Theorem detect_environment_on_path (root file : string) :
  String.prefix "/" file = false →
  contains_ci "mac" root →
  detect_environment (path_join root file) = "mac".
Proof.
  intros Hrel (a & b & Hroot). unfold detect_environment. cbv zeta.
  assert (str_in "mac" (lower (path_join root file)) = true) as ->; [| done].
  apply str_in_spec. unfold path_join. rewrite Hrel.
  destruct (_ || _); rewrite !lower_app, Hroot.
  - exists a, (b +:+ lower file). by rewrite !append_assoc.
  - exists a, (b +:+ lower "/" +:+ lower file). by rewrite !append_assoc.
Qed.

Lemma detect_environment_on_path_witness :
  detect_environment (path_join "runs/MacBook/win-job" "meta_linux.csv")
    = "mac".
Proof.
  apply detect_environment_on_path; [reflexivity |].
  apply str_in_spec. vm_compute. reflexivity.
Defined.

End ColetaExtras.

(** ** More on the classifier *)

Section InterpretExtras.
Import PyStr Interpret.

Lemma str_le_iff (a b : string) :
  str_le a b ↔ a = b ∨ OrderedTypeEx.String_as_OT.lt a b.
Proof.
  unfold str_le, String.leb.
  rewrite <- OrderedTypeEx.String_as_OT.cmp_lt,
          <- OrderedTypeEx.String_as_OT.cmp_eq.
  unfold OrderedTypeEx.String_as_OT.cmp. destruct (String.compare a b);
    split; intros H; auto; try discriminate.
  destruct H; discriminate.
Qed.

#[local] Instance str_le_trans : Transitive str_le.
Proof.
  intros a b c. rewrite !str_le_iff. intros [->|Hab] [->|Hbc]; auto.
  right. by apply (OrderedTypeEx.String_as_OT.lt_trans a b c).
Qed.

#[local] Instance str_le_antisym : AntiSymm (=) str_le.
Proof. intros a b. apply String.leb_antisym. Qed.

#[local] Instance str_le_total : Total str_le.
Proof. intros a b. apply String.leb_total. Qed.

Lemma sorted_StronglySorted (l : list string) :
  StronglySorted str_le (sorted l).
Proof. apply (StronglySorted_merge_sort str_le). Qed.

Lemma sorted_Permutation_eq (l1 l2 : list string) :
  l1 ≡ₚ l2 → sorted l1 = sorted l2.
Proof.
  intros H. apply (StronglySorted_unique str_le);
    [apply sorted_StronglySorted | apply sorted_StronglySorted |].
  by rewrite !sorted_perm.
Qed.





Lemma result_nil_iff (df : list record) :
  result df = [] ↔ flaky_tests df = [].
Proof.
  split.
  - intros Hres. destruct (flaky_tests df) as [|f fl] eqn:E; [done |].
    assert (f ∈ flaky_tests df) as Hf by (rewrite E; left).
    destruct (flaky_has_record df f Hf) as (r & Hr & Hk).
    assert (select_columns (f, Some (detail_of r)) ∈ result df) as Hin.
    { apply elem_of_result. eauto 6. }
    rewrite Hres in Hin. by apply elem_of_nil in Hin.
  - intros Hnil. by rewrite result_unfold, Hnil.
Qed.

Lemma analyze_returns_result (path : string) (df : list record) :
  (analyze_flaky_tests path (ReadOk df)).2 = result df.
Proof.
  unfold result, analyze_flaky_tests. by destruct (flaky_tests df).
Qed.

Lemma flaky_tests_from_groups (df df' : list record) :
  sorted (unique (test_id <$> df)) = sorted (unique (test_id <$> df')) →
  (∀ k, group_environments df k = group_environments df' k) →
  environment_universe df = environment_universe df' →
  flaky_tests df = flaky_tests df'.
Proof.
  intros Hkeys Hgroups Huniv. unfold flaky_tests.
  rewrite !all_environments_universe, Huniv. f_equal.
  unfold test_environments. rewrite Hkeys. apply list_fmap_ext.
  intros i k _. f_equal. apply Hgroups.
Qed.

(** X16. Flakiness is decided on project, test name and environment
    alone: two inputs whose records agree, one by one, on these three
    fields give the same list of flaky tests, whatever outcomes and
    line numbers they carry. *)
Theorem flaky_ignores_outcome (df df' : list record) :
  observation <$> df = observation <$> df' →
  flaky_tests df = flaky_tests df'.
Proof.
  intros Hobs.
  assert (∀ (g : string * string * string → string),
            (λ r, g (observation r)) <$> df = (λ r, g (observation r)) <$> df')
    as Hmap.
  { intros g. by rewrite !(list_fmap_compose observation g), Hobs. }
  assert (∀ k, environment <$> filter (λ r, test_id r = k) df =
               environment <$> filter (λ r, test_id r = k) df') as Hgroup.
  { intros k.
    pose proof (filter_fmap_comm
      (λ o : string * string * string, (o.1.1 +:+ "::") +:+ o.1.2 = k)
      observation) as Hf.
    transitivity (snd <$> filter
      (λ o : string * string * string, (o.1.1 +:+ "::") +:+ o.1.2 = k)
      (observation <$> df)).
    - rewrite Hf, <- list_fmap_compose. done.
    - rewrite Hobs, Hf, <- list_fmap_compose. done. }
  apply flaky_tests_from_groups.
  - assert (test_id <$> df = test_id <$> df') as ->; [| done].
    exact (Hmap (λ o, (o.1.1 +:+ "::") +:+ o.1.2)).
  - intros k. unfold group_environments. by rewrite Hgroup.
  - unfold environment_universe.
    assert (environment <$> df = environment <$> df') as ->; [| done].
    exact (Hmap snd).
Qed.

Lemma flaky_ignores_outcome_witness :
  flaky_tests [ Rec "p" "t" "failed" (Some 3%Z) "linux";
                Rec "p" "u" "failed" None "mac" ] =
  flaky_tests [ Rec "p" "t" "passed" None "linux";
                Rec "p" "u" "skipped" (Some 9%Z) "mac" ].
Proof. apply flaky_ignores_outcome. reflexivity. Defined.

(** X17. The list of flaky tests does not depend on the order of the
    rows of the input. *)
Theorem flaky_ignores_row_order (df df' : list record) :
  df ≡ₚ df' → flaky_tests df = flaky_tests df'.
Proof.
  intros Hperm. apply flaky_tests_from_groups.
  - apply sorted_Permutation_eq. apply NoDup_Permutation; try apply NoDup_unique.
    intros k. by rewrite !elem_of_unique, Hperm.
  - intros k. apply set_eq. intros e. rewrite !elem_of_group_environments.
    by setoid_rewrite Hperm.
  - apply set_eq. intros e. unfold environment_universe.
    by rewrite !elem_of_list_to_set, Hperm.
Qed.

Lemma flaky_ignores_row_order_witness :
  flaky_tests [ Rec "p" "t" "failed" None "linux";
                Rec "p" "u" "failed" None "mac";
                Rec "p" "t" "failed" None "mac" ] =
  flaky_tests [ Rec "p" "u" "failed" None "mac";
                Rec "p" "t" "failed" None "linux";
                Rec "p" "t" "failed" None "mac" ].
Proof. apply flaky_ignores_row_order. apply perm_swap. Defined.

Lemma StronglySorted_sublist {A} (R : relation A) (l1 l2 : list A) :
  l1 `sublist_of` l2 → StronglySorted R l2 → StronglySorted R l1.
Proof.
  induction 1 as [|x l1 l2 Hsub IH|x l1 l2 Hsub IH]; intros Hs.
  - constructor.
  - apply StronglySorted_inv in Hs as [Hs Hall]. constructor; [by apply IH |].
    apply Forall_forall. intros y Hy. rewrite Forall_forall in Hall.
    apply Hall. by apply (elem_of_sublist l1 l2).
  - apply StronglySorted_inv in Hs as [Hs _]. by apply IH.
Qed.

Lemma fmap_bind_list {A B C} (g : B → C) (h : A → list B) (l : list A) :
  g <$> (l ≫= h) = l ≫= (λ x, g <$> h x).
Proof.
  induction l as [|x l IH]; [done |].
  by rewrite !bind_cons, fmap_app, IH.
Qed.

Lemma flaky_lines (df : list record) (f : flaky) :
  f ∈ flaky_tests df →
  select_columns <$> merged_lines (test_details df) f =
    (λ d, select_columns (f, Some d)) <$>
      unique (detail_of <$> filter (λ r, test_id r = f_test_id f) df).
Proof.
  intros Hf. rewrite merge_row_flaky by done. rewrite <- list_fmap_compose.
  unfold test_details. by rewrite filter_unique, filter_fmap_comm.
Qed.

Lemma result_bind (df : list record) :
  result df =
    (flaky_tests df ≫= λ f,
       (λ d, select_columns (f, Some d)) <$>
         unique (detail_of <$> filter (λ r, test_id r = f_test_id f) df)).
Proof.
  rewrite result_unfold. unfold merge_left. rewrite fmap_bind_list.
  apply Forall_bind_ext, Forall_forall. intros f Hf. by apply flaky_lines.
Qed.

(** X18. The returned frame is laid out test identity by test identity,
    in ascending order of test_id, each flaky identity appearing once;
    within an identity the lines are its distinct (project, test_name,
    outcome) combinations in order of first appearance in the input. *)
Theorem result_layout (df : list record) :
  result df =
    (flaky_tests df ≫= λ f,
       (λ d, select_columns (f, Some d)) <$>
         unique (detail_of <$> filter (λ r, test_id r = f_test_id f) df)) ∧
  StronglySorted str_le (f_test_id <$> flaky_tests df) ∧
  NoDup (f_test_id <$> flaky_tests df).
Proof.
  split; [| split; [| apply NoDup_flaky_tests]].
  - apply result_bind.
  - unfold flaky_tests. rewrite flaky_loop_keys.
    eapply StronglySorted_sublist; [apply fmap_sublist, sublist_filter |].
    rewrite test_environments_keys. apply sorted_StronglySorted.
Qed.

Lemma length_first_occurrences {A} `{EqDecision A} (seen l : list A) :
  length (first_occurrences seen l) ≤ length l.
Proof.
  revert seen. induction l as [|x l IH]; intros seen; simpl; [lia |].
  case_decide; simpl; [specialize (IH seen) | specialize (IH (x :: seen))];
    lia.
Qed.

Lemma groups_length (ks : list string) (df : list record) :
  NoDup ks →
  list_sum ((λ k, length (filter (λ r, test_id r = k) df)) <$> ks)
    ≤ length df.
Proof.
  intros Hnd. revert df. induction Hnd as [|k0 ks Hk0 Hnd IH]; intros df.
  - simpl. lia.
  - rewrite fmap_cons. cbn [list_sum]. cbv beta.
    pose proof (filter_app_complement (λ r, test_id r = k0) df) as Hperm.
    apply Permutation_length in Hperm. rewrite length_app in Hperm.
    specialize (IH (filter (λ r, ¬ test_id r = k0) df)).
    assert ((λ k, length (filter (λ r, test_id r = k) df)) <$> ks =
            (λ k, length (filter (λ r, test_id r = k)
                            (filter (λ r, ¬ test_id r = k0) df))) <$> ks)
      as ->; [| simpl; lia].
    apply list_fmap_ext. intros i k Hk. rewrite list_filter_filter.
    f_equal. apply list_filter_iff. intros r. split; [| tauto].
    intros <-. split; [done |]. intros Heq. apply Hk0. rewrite <- Heq.
    by eapply list_elem_of_lookup_2.
Qed.

(** X19. The returned frame has at least one line per flaky test and
    at most as many lines as the input has records. *)
Theorem result_length (df : list record) :
  length (flaky_tests df) ≤ length (result df) ∧
  length (result df) ≤ length df.
Proof.
  pose proof (NoDup_flaky_tests df) as Hnd. rewrite (result_bind df).
  set (g := λ f : flaky,
         (λ d, select_columns (f, Some d)) <$>
           unique (detail_of <$> filter (λ r, test_id r = f_test_id f) df)).
  split.
  - assert (∀ f, f ∈ flaky_tests df → 1 ≤ length (g f)) as Hpos.
    { intros f Hf. destruct (flaky_has_record df f Hf) as (r & Hr & Hk).
      assert (detail_of r ∈ unique
                (detail_of <$> filter (λ r, test_id r = f_test_id f) df))
        as Hin.
      { rewrite elem_of_unique, list_elem_of_fmap. exists r. split; [done |].
        by apply list_elem_of_filter. }
      unfold g. rewrite length_fmap.
      destruct (unique _); [by apply elem_of_nil in Hin | simpl; lia]. }
    revert Hpos. generalize (flaky_tests df). intros fl.
    induction fl as [|f fl IH]; intros Hpos; [done |].
    rewrite bind_cons, length_app. simpl.
    pose proof (Hpos f ltac:(left)) as Hf.
    assert (length fl ≤ length (fl ≫= g)); [| lia].
    apply IH. intros f' Hf'. apply Hpos. by right.
  - etrans; [| apply (groups_length (f_test_id <$> flaky_tests df) df Hnd)].
    clear Hnd. induction (flaky_tests df) as [|f fl IH]; [done |].
    rewrite bind_cons, length_app, !fmap_cons.
    assert (length (g f) ≤ length (filter (λ r, test_id r = f_test_id f) df));
      [| simpl; lia].
    unfold g. rewrite length_fmap.
    etrans; [apply length_first_occurrences |]. by rewrite length_fmap.
Qed.

Lemma test_id_inj_colon_free_witness :
  project (Rec "flask" "tests/a.py::test_x" "failed" None "linux") =
    project (Rec "flask" "tests/a.py::test_x" "error" None "mac") ∧
  test_name (Rec "flask" "tests/a.py::test_x" "failed" None "linux") =
    test_name (Rec "flask" "tests/a.py::test_x" "error" None "mac").
Proof. apply test_id_inj_colon_free; reflexivity. Defined.

End InterpretExtras.


(** ** The classifier on frames *)

Section FrameProperties.
Import PyStr Interpret.

Lemma first_occurrences_fmap {A B} `{EqDecision A, EqDecision B}
    (g : A → B) `{!Inj (=) (=) g} (seen l : list A) :
  first_occurrences (g <$> seen) (g <$> l) = g <$> first_occurrences seen l.
Proof.
  revert seen. induction l as [|x l IH]; intros seen; [done |].
  rewrite fmap_cons. cbn [first_occurrences].
  destruct (decide (x ∈ seen)) as [Hx|Hx].
  - rewrite decide_True by (by apply list_elem_of_fmap_inj). apply IH.
  - rewrite decide_False by (by rewrite list_elem_of_fmap_inj).
    rewrite fmap_cons. f_equal. apply (IH (x :: seen)).
Qed.

Lemma unique_fmap {A B} `{EqDecision A, EqDecision B}
    (g : A → B) `{!Inj (=) (=) g} (l : list A) :
  unique (g <$> l) = g <$> unique l.
Proof. apply (first_occurrences_fmap g [] l). Qed.

#[local] Instance of_detail_inj : Inj (=) (=) Frame.of_detail.
Proof. intros [[[a b] c] d] [[[a' b'] c'] d'] H. by injection H as -> -> -> ->. Qed.

#[local] Instance Text_inj : Inj (=) (=) Frame.Text.
Proof. by intros a b [= ->]. Qed.

Lemma project_sep_of_records (df : list record) :
  Frame.project_sep (Frame.of_records df) =
    Done ((λ r, Some (project r +:+ "::")) <$> df).
Proof.
  unfold Frame.project_sep. cbn [Frame.of_records Frame.body].
  rewrite <- !list_fmap_compose.
  assert (existsb Frame.is_number ((Frame.project ∘ Frame.of_record) <$> df)
          = false) as ->.
  { induction df as [|r df IH]; [done |]. by rewrite fmap_cons. }
  by destruct df.
Qed.

Lemma add_column_of_records (df : list record) :
  Frame.add_column ((λ r, Some (project r +:+ "::")) <$> df)
    (Frame.test_name <$> (Frame.of_record <$> df)) =
  Done ((λ r, Some (test_id r)) <$> df).
Proof.
  induction df as [|r df IH]; [done |].
  rewrite !fmap_cons. cbn [Frame.add_column]. rewrite IH. done.
Qed.

Lemma test_ids_of_records (df : list record) :
  Frame.test_ids (Frame.of_records df) = Done ((λ r, Some (test_id r)) <$> df).
Proof.
  unfold Frame.test_ids. rewrite project_sep_of_records, bind_Done.
  change (Frame.has_column (Frame.of_records df) "test_name") with true.
  apply add_column_of_records.
Qed.

Lemma zip_fmap_same {A B C} (g : A → B) (h : A → C) (l : list A) :
  zip (g <$> l) (h <$> l) = (λ x, (g x, h x)) <$> l.
Proof. induction l as [|x l IH]; [done |]. by rewrite !fmap_cons, <- IH. Qed.

Lemma omap_fst_keyed (df : list record) :
  omap fst (Frame.keyed_record <$> df) = test_id <$> df.
Proof. induction df as [|r df IH]; [done |]. by rewrite !fmap_cons, <- IH. Qed.

Lemma test_environments_of_records (df : list record) :
  Frame.test_environments (Frame.keyed_record <$> df) = test_environments df.
Proof.
  unfold Frame.test_environments, test_environments.
  rewrite omap_fst_keyed. apply list_fmap_ext. intros i k _. f_equal. f_equal.
  rewrite (filter_fmap_comm (λ kr : Frame.keyed, kr.1 = Some k) Frame.keyed_record).
  rewrite <- list_fmap_compose. f_equal.
  apply list_filter_iff. intros r. cbn. split; [by intros [= ->] | by intros ->].
Qed.

Lemma test_details_of_records (df : list record) :
  Frame.test_details (Frame.keyed_record <$> df) = Frame.of_detail <$> test_details df.
Proof.
  unfold Frame.test_details, test_details.
  rewrite <- (unique_fmap Frame.of_detail), <- !list_fmap_compose. done.
Qed.

Lemma merged_lines_of_details (ds : list detail) (f : flaky) :
  Frame.select_columns <$> Frame.merged_lines (Frame.of_detail <$> ds) f =
  Frame.of_verdict <$> (select_columns <$> merged_lines ds f).
Proof.
  unfold Frame.merged_lines, merged_lines.
  rewrite (filter_fmap_comm
             (λ d, Frame.d_test_id d = Some (f_test_id f)) Frame.of_detail).
  assert (filter (λ d, Frame.d_test_id (Frame.of_detail d) = Some (f_test_id f)) ds
          = filter (λ d, d_test_id d = f_test_id f) ds) as ->.
  { apply list_filter_iff. intros d. cbn. unfold d_test_id.
    split; [by intros [= ->] | by intros ->]. }
  destruct (filter _ ds) as [|d l]; [done |].
  rewrite fmap_cons. cbv iota. rewrite <- fmap_cons.
  rewrite <- !list_fmap_compose. by apply list_fmap_ext.
Qed.

Lemma merge_left_of_details (fl : list flaky) (ds : list detail) :
  Frame.select_columns <$> Frame.merge_left fl (Frame.of_detail <$> ds) =
  Frame.of_verdict <$> (select_columns <$> merge_left fl ds).
Proof.
  unfold Frame.merge_left, merge_left.
  induction fl as [|f fl IH]; [done |].
  rewrite !bind_cons, !fmap_app, IH. f_equal. apply merged_lines_of_details.
Qed.

(** The two models agree: on the frame of a file whose text cells are
    all present, nothing raises, and the lines printed and the frame
    returned are those computed on the records. *)
Theorem frame_of_records_agrees (path : string) (df : list record) :
  Frame.analyze_flaky_tests path (Frame.Read (Frame.of_records df)) =
    ((analyze_flaky_tests path (ReadOk df)).1,
     Done (Frame.of_verdict <$> (analyze_flaky_tests path (ReadOk df)).2)).
Proof.
  unfold Frame.analyze_flaky_tests, analyze_flaky_tests.
  change (Frame.has_column (Frame.of_records df) "environment") with true.
  change (Frame.has_column (Frame.of_records df) "project") with true.
  change (Frame.has_column (Frame.of_records df) "outcome") with true.
  cbn [negb]. rewrite test_ids_of_records.
  cbn [Frame.of_records Frame.body Frame.labels].
  rewrite zip_fmap_same. fold Frame.keyed_record.
  rewrite test_environments_of_records, test_details_of_records.
  rewrite <- !(list_fmap_compose Frame.of_record).
  change (Frame.environment ∘ Frame.of_record) with environment.
  change (Frame.project ∘ Frame.of_record) with (Frame.Text ∘ project).
  rewrite (list_fmap_compose project Frame.Text).
  rewrite (unique_fmap Frame.Text), length_fmap.
  rewrite (list_fmap_compose test_id Some), (unique_fmap Some), length_fmap.
  change (list_to_set (unique (environment <$> df))) with (all_environments df).
  rewrite ?length_fmap.
  assert (size (all_test_ids df) = length (unique (test_id <$> df))) as ->.
  { unfold all_test_ids. apply size_list_to_set, NoDup_unique. }
  fold (flaky_tests df).
  destruct (flaky_tests df) as [|f fl] eqn:E; [done |].
  cbn [fst snd]. by rewrite merge_left_of_details.
Qed.

Lemma project_sep_Done (df : Frame.frame) left :
  Frame.project_sep df = Done left →
  left = (λ r, match Frame.project r with
               | Frame.Text p => Some (p +:+ "::")
               | _ => None
               end) <$> Frame.body df ∧
  Forall (λ r, Frame.is_number (Frame.project r) = false) (Frame.body df).
Proof.
  unfold Frame.project_sep. intros H.
  destruct (existsb Frame.is_number (Frame.project <$> Frame.body df)) eqn:En;
    [discriminate |].
  cbn [orb] in H. destruct (match Frame.project <$> Frame.body df with
                            | [] => false | _ => _ end); [discriminate |].
  injection H as <-. split; [by rewrite <- list_fmap_compose |].
  apply Forall_forall. intros r Hr.
  destruct (Frame.is_number (Frame.project r)) eqn:E; [| done].
  assert (existsb Frame.is_number (Frame.project <$> Frame.body df) = true)
    as Hex; [| congruence].
  apply existsb_exists. exists (Frame.project r). split; [| done].
  apply list_elem_of_In, list_elem_of_fmap. eauto.
Qed.

Lemma add_column_Done (rows : list Frame.row) ids :
  Forall (λ r, Frame.is_number (Frame.project r) = false) rows →
  Frame.add_column
    ((λ r, match Frame.project r with
           | Frame.Text p => Some (p +:+ "::")
           | _ => None
           end) <$> rows) (Frame.test_name <$> rows) = Done ids →
  ids = Frame.row_key <$> rows.
Proof.
  intros Hnum. revert ids.
  induction Hnum as [|r rows Hr Hnum IH]; intros ids H.
  - by injection H as <-.
  - rewrite !fmap_cons in H. cbn [Frame.add_column] in H.
    destruct (Frame.add_test_name _ (Frame.test_name r)) as [x|] eqn:Ex;
      [| discriminate].
    rewrite bind_Done in H.
    destruct (Frame.add_column _ (Frame.test_name <$> rows)) as [xs|] eqn:Exs;
      [| discriminate].
    rewrite bind_Done in H. injection H as <-.
    rewrite fmap_cons, (IH xs eq_refl). f_equal.
    unfold Frame.row_key.
    destruct (Frame.project r), (Frame.test_name r);
      cbn in Ex; by inversion Ex.
Qed.

Lemma test_ids_Done (df : Frame.frame) ids :
  Frame.test_ids df = Done ids →
  ids = Frame.row_key <$> Frame.body df ∧
  zip ids (Frame.body df) = Frame.keyed_rows df.
Proof.
  unfold Frame.test_ids. intros H.
  destruct (Frame.project_sep df) as [left|] eqn:El; [| discriminate].
  rewrite bind_Done in H. apply project_sep_Done in El as [-> Hnum].
  destruct (negb (Frame.has_column df "test_name")); [discriminate |].
  apply add_column_Done in H as ->; [| done]. split; [done |].
  unfold Frame.keyed_rows.
  rewrite <- (list_fmap_id (Frame.body df)) at 2. apply zip_fmap_same.
Qed.

Lemma frame_all_environments (df : Frame.frame) :
  list_to_set (unique (Frame.environment <$> Frame.body df))
    = Frame.environment_universe df.
Proof.
  apply set_eq. intros e. unfold Frame.environment_universe.
  by rewrite !elem_of_list_to_set, elem_of_unique.
Qed.

Lemma elem_of_frame_groups (df : Frame.frame) (k : string) (s : gset string) :
  (k, s) ∈ Frame.test_environments (Frame.keyed_rows df) ↔
  Some k ∈ Frame.row_key <$> Frame.body df ∧
  s = Frame.group_environments df k.
Proof.
  unfold Frame.test_environments, Frame.keyed_rows, Frame.group_environments.
  assert (∀ k', list_to_set
            ((λ kr : Frame.keyed, Frame.environment kr.2) <$>
             filter (λ kr : Frame.keyed, kr.1 = Some k')
               ((λ r, (Frame.row_key r, r)) <$> Frame.body df)) =
          (list_to_set (Frame.environment <$>
             filter (λ r, Frame.row_key r = Some k') (Frame.body df))
           : gset string)) as Hg.
  { intros k'. f_equal.
    rewrite (filter_fmap_comm (λ kr : Frame.keyed, kr.1 = Some k')
               (λ r, (Frame.row_key r, r))).
    by rewrite <- list_fmap_compose. }
  assert (∀ k', k' ∈ omap fst ((λ r, (Frame.row_key r, r)) <$> Frame.body df)
                ↔ Some k' ∈ Frame.row_key <$> Frame.body df) as Hk.
  { intros k'. rewrite list_elem_of_omap, list_elem_of_fmap. split.
    - intros (kr & Hkr & Hfst). apply list_elem_of_fmap in Hkr as (r & -> & Hr).
      exists r. by split.
    - intros (r & Hkey & Hr). exists (Frame.row_key r, r).
      split; [| done]. apply list_elem_of_fmap. eauto. }
  rewrite list_elem_of_fmap. split.
  - intros (k' & [= -> ->] & Hin).
    rewrite elem_of_sorted, elem_of_unique, Hk in Hin. by rewrite Hg.
  - intros [Hin ->]. exists k. rewrite Hg. split; [done |].
    by rewrite elem_of_sorted, elem_of_unique, Hk.
Qed.


Lemma elem_of_frame_flaky (df : Frame.frame) (f : flaky) :
  f ∈ Frame.flaky_tests df ↔
  ∃ k, Some k ∈ Frame.row_key <$> Frame.body df ∧
       Frame.group_environments df k ≠ Frame.environment_universe df ∧
       f = Flaky k (sorted (elements (Frame.group_environments df k)))
             (sorted (elements (Frame.environment_universe df
                                  ∖ Frame.group_environments df k)))
             (size (Frame.group_environments df k))
             (size (Frame.environment_universe df
                      ∖ Frame.group_environments df k)).
Proof.
  unfold Frame.flaky_tests. rewrite elem_of_flaky_loop. split.
  - intros (k & s & Hin & Hne & ->).
    apply elem_of_frame_groups in Hin as [Hk ->]. eauto.
  - intros (k & Hk & Hne & ->). exists k, (Frame.group_environments df k).
    by rewrite elem_of_frame_groups.
Qed.


(** The lines the merge gives a flaky entry: one per distinct detail of
    the rows of its test_id. *)
Lemma elem_of_frame_lines (df : Frame.frame) (f : flaky)
    (m : flaky * option Frame.detail) :
  f ∈ Frame.flaky_tests df →
  m ∈ Frame.merged_lines (Frame.test_details (Frame.keyed_rows df)) f ↔
  ∃ r, r ∈ Frame.body df ∧ Frame.row_key r = Some (f_test_id f) ∧
       m = (f, Some (Frame.detail_of (Frame.row_key r, r))).
Proof.
  intros Hf.
  assert (∃ r0, r0 ∈ Frame.body df ∧ Frame.row_key r0 = Some (f_test_id f))
    as (r0 & Hr0 & Hk0).
  { apply elem_of_frame_flaky in Hf as (k & Hk & _ & ->).
    apply list_elem_of_fmap in Hk as (r0 & Hk0 & Hr0). eauto. }
  assert (∀ d,
            d ∈ filter (λ d, Frame.d_test_id d = Some (f_test_id f))
                  (Frame.test_details (Frame.keyed_rows df)) ↔
            ∃ r, r ∈ Frame.body df ∧ Frame.row_key r = Some (f_test_id f) ∧
                 d = Frame.detail_of (Frame.row_key r, r)) as Hd.
  { intros d. rewrite list_elem_of_filter.
    unfold Frame.test_details, Frame.keyed_rows.
    rewrite elem_of_unique, <- list_fmap_compose, list_elem_of_fmap. split.
    - intros [Hkey (r & -> & Hr)]. by exists r.
    - intros (r & Hr & Hkey & ->). split; [done |]. by exists r. }
  unfold Frame.merged_lines.
  destruct (filter _ (Frame.test_details _)) as [|d ds] eqn:E.
  - exfalso. apply (elem_of_nil (Frame.detail_of (Frame.row_key r0, r0))).
    apply Hd. eauto.
  - rewrite list_elem_of_fmap. split.
    + intros (d' & -> & Hd'). apply Hd in Hd' as (r & ? & ? & ->). eauto.
    + intros (r & Hr & Hkey & ->). eexists. split; [done |].
      apply Hd. eauto.
Qed.

(** What a run that returns has gone through. *)
Lemma analyze_Done_inv (path : string) (df : Frame.frame) log vs :
  Frame.analyze_flaky_tests path (Frame.Read df) = (log, Done vs) →
  (Frame.try_failed (Frame.Read df) ∧ vs = []) ∨
  (¬ Frame.try_failed (Frame.Read df) ∧
   Frame.test_ids df = Done (Frame.row_key <$> Frame.body df) ∧
   vs = Frame.select_columns <$>
          Frame.merge_left (Frame.flaky_tests df)
            (Frame.test_details (Frame.keyed_rows df))).
Proof.
  intros H. cbn [Frame.try_failed].
  unfold Frame.analyze_flaky_tests in H.
  destruct (Frame.has_column df "environment");
    [| left; split; [by left | by inversion H]].
  destruct (Frame.has_column df "project");
    [| left; split; [by right | by inversion H]].
  cbn [negb] in H. right. split; [by intros [|] |].
  destruct (Frame.test_ids df) as [ids|] eqn:Eids; [| by inversion H].
  apply test_ids_Done in Eids as [-> Hzip]. split; [done |].
  rewrite Hzip, frame_all_environments in H.
  fold (Frame.flaky_tests df) in H.
  destruct (Frame.flaky_tests df) as [|f fl] eqn:Efl.
  - by inversion H.
  - destruct (negb (Frame.has_column df "outcome")); by inversion H.
Qed.

Lemma elem_of_frame_result (path : string) (df : Frame.frame) log vs
    (v : Frame.verdict) :
  Frame.analyze_flaky_tests path (Frame.Read df) = (log, Done vs) →
  v ∈ vs ↔
  ¬ Frame.try_failed (Frame.Read df) ∧
  ∃ f r, f ∈ Frame.flaky_tests df ∧ r ∈ Frame.body df ∧
         Frame.row_key r = Some (f_test_id f) ∧
         v = Frame.select_columns
               (f, Some (Frame.detail_of (Frame.row_key r, r))).
Proof.
  intros H. apply analyze_Done_inv in H as [[Hfail ->]|(Hok & _ & ->)].
  - split; [by intros ?%elem_of_nil | by intros [? _]].
  - rewrite list_elem_of_fmap. unfold Frame.merge_left. split.
    + intros (m & -> & Hm). split; [done |].
      apply list_elem_of_bind in Hm as (f & Hm & Hf).
      apply elem_of_frame_lines in Hm as (r & Hr & Hk & ->); [| done].
      eauto 6.
    + intros (_ & f & r & Hf & Hr & Hk & ->). eexists. split; [done |].
      apply list_elem_of_bind. exists f. split; [| done].
      apply elem_of_frame_lines; [done |]. eauto.
Qed.

Lemma row_key_Some (r : Frame.row) (k : string) :
  Frame.row_key r = Some k ↔
  ∃ p t, Frame.project r = Frame.Text p ∧ Frame.test_name r = Frame.Text t ∧
         k = (p +:+ "::") +:+ t.
Proof.
  unfold Frame.row_key. split.
  - destruct (Frame.project r) as [p| |], (Frame.test_name r) as [t| |];
      try discriminate. intros [= <-]. eauto.
  - intros (p & t & -> & -> & ->). done.
Qed.




(** C5: flaky exactly when the environments of the group differ from
    those of the whole input is what the code breaks for a test whose
    name cell is empty and for a project column read as numbers.  In
    [Frame.unnamed_test] the test of project p without a name is seen on
    linux alone, of the two environments of the input; line 46 counts it
    among the two tests analysed, yet the returned frame classifies the
    test p::t2 only.  On [Frame.numeric_project], where t1 is seen on
    linux and mac and not on windows, line 40 raises and no test is
    classified. *)
Theorem unnamed_test_not_classified :
  Frame.environment_universe Frame.unnamed_test = {[ "linux"; "mac" ]} ∧
  list_to_set
    (Frame.environment <$>
       filter (λ r, Frame.project r = Frame.Text "p" ∧
                    Frame.test_name r = Frame.Missing)
         (Frame.body Frame.unnamed_test)) = ({[ "linux" ]} : gset string) ∧
  Frame.analyze_flaky_tests "final.csv" (Frame.Read Frame.unnamed_test) =
    ([ Loaded 2 "final.csv"; ColumnsFound columns;
       UniqueEnvironments ["linux"; "mac"]; UniqueProjects 1;
       TotalUnique 2; EnvironmentsFound {[ "linux"; "mac" ]} ],
     Done [ Frame.Verdict (Frame.Text "p") (Frame.Text "t2")
              (Frame.Text "failed") ["mac"] ["linux"] 1 1 ]) ∧
  Frame.analyze_flaky_tests "final.csv" (Frame.Read Frame.numeric_project) =
    ([ Loaded 3 "final.csv"; ColumnsFound columns;
       UniqueEnvironments ["linux"; "mac"; "windows"]; UniqueProjects 1 ],
     Raised "TypeError").
Proof. repeat split; by vm_compute. Qed.

(** Line 40 in closed form. *)
Lemma add_column_spec (rows : list Frame.row) :
  Frame.add_column
    ((λ r, match Frame.project r with
           | Frame.Text p => Some (p +:+ "::")
           | _ => None
           end) <$> rows) (Frame.test_name <$> rows) =
  if existsb (λ r, Frame.is_text (Frame.project r)
                   && Frame.is_number (Frame.test_name r)) rows
  then Raised "TypeError"
  else Done (Frame.row_key <$> rows).
Proof.
  induction rows as [|[p t o l e] rows IH]; [done |].
  rewrite !fmap_cons. cbn [Frame.add_column existsb]. rewrite IH.
  destruct (existsb _ rows); by destruct p, t.
Qed.

Lemma test_ids_spec (df : Frame.frame) :
  Frame.test_ids df =
    if existsb Frame.is_number (Frame.project <$> Frame.body df)
       || match Frame.project <$> Frame.body df with
          | [] => false
          | _ :: _ =>
              negb (existsb Frame.is_text (Frame.project <$> Frame.body df))
          end
    then Raised "TypeError"
    else if negb (Frame.has_column df "test_name") then Raised "KeyError"
    else if existsb (λ r, Frame.is_text (Frame.project r)
                          && Frame.is_number (Frame.test_name r))
              (Frame.body df)
    then Raised "TypeError"
    else Done (Frame.row_key <$> Frame.body df).
Proof.
  unfold Frame.test_ids, Frame.project_sep. cbv zeta.
  destruct (existsb Frame.is_number _ || _); [done |].
  rewrite bind_Done. destruct (negb _); [done |].
  rewrite <- list_fmap_compose. apply add_column_spec.
Qed.

Lemma existsb_elem_of {A} (f : A → bool) (l : list A) :
  existsb f l = true ↔ ∃ x, x ∈ l ∧ f x = true.
Proof.
  rewrite existsb_exists. split; intros (x & Hx & Hf); exists x;
    (split; [by apply list_elem_of_In | done]).
Qed.

Lemma existsb_fmap {A B} (f : B → bool) (g : A → B) (l : list A) :
  existsb f (g <$> l) = existsb (f ∘ g) l.
Proof. induction l as [|x l IH]; [done |]. cbn. by rewrite <- IH. Qed.

(** When line 40 raises. *)
Lemma test_ids_Raised_iff (df : Frame.frame) :
  (∃ exn, Frame.test_ids df = Raised exn) ↔
  (∃ r, r ∈ Frame.body df ∧ Frame.is_number (Frame.project r) = true) ∨
  (Frame.body df ≠ [] ∧
   ∀ r, r ∈ Frame.body df → Frame.is_text (Frame.project r) = false) ∨
  Frame.has_column df "test_name" = false ∨
  (∃ r, r ∈ Frame.body df ∧ Frame.is_text (Frame.project r) = true ∧
        Frame.is_number (Frame.test_name r) = true).
Proof.
  rewrite test_ids_spec, existsb_fmap.
  assert (match Frame.project <$> Frame.body df with
          | [] => false
          | _ :: _ =>
              negb (existsb Frame.is_text (Frame.project <$> Frame.body df))
          end = true ↔
          Frame.body df ≠ [] ∧
          ∀ r, r ∈ Frame.body df → Frame.is_text (Frame.project r) = false)
    as Hnotext.
  { rewrite existsb_fmap. destruct (Frame.body df) as [|r0 rows] eqn:E.
    - split; [done | by intros [? _]].
    - rewrite fmap_cons, <- E, negb_true_iff. split.
      + intros Hex. split; [by rewrite E |]. intros r Hr.
        destruct (Frame.is_text (Frame.project r)) eqn:Et; [| done].
        assert (existsb (Frame.is_text ∘ Frame.project) (Frame.body df) = true)
          as Hyes by (apply existsb_elem_of; eauto).
        congruence.
      + intros [_ Hall].
        destruct (existsb _ (Frame.body df)) eqn:Ex; [| done].
        apply existsb_elem_of in Ex as (r & Hr & Ht).
        specialize (Hall r Hr). unfold compose in Ht. congruence. }
  destruct (existsb (Frame.is_number ∘ Frame.project) (Frame.body df)) eqn:En.
  { apply existsb_elem_of in En as (r & Hr & Hn). split; [eauto | eauto]. }
  cbn [orb].
  destruct (match Frame.project <$> Frame.body df with
            | [] => false | _ :: _ => _ end) eqn:Em.
  { split; [| eauto]. intros _. right. left. by apply Hnotext. }
  destruct (Frame.has_column df "test_name") eqn:Ec; cbn [negb];
    [| split; eauto].
  destruct (existsb (λ r, _ && _) (Frame.body df)) eqn:Ed.
  { apply existsb_elem_of in Ed as (r & Hr & [Ht Hn]%andb_true_iff).
    split; [| eauto]. intros _. do 3 right. eauto. }
  split; [by intros [exn ?] |].
  intros [(r & Hr & Hn)|[Hno|[?|(r & Hr & Ht & Hn)]]]; exfalso.
  - assert (existsb (Frame.is_number ∘ Frame.project) (Frame.body df) = true)
      as Hyes by (apply existsb_elem_of; eauto).
    congruence.
  - apply Hnotext in Hno. congruence.
  - done.
  - assert (existsb (λ r, Frame.is_text (Frame.project r)
                          && Frame.is_number (Frame.test_name r))
              (Frame.body df) = true) as Hyes.
    { apply existsb_elem_of. exists r. by rewrite Ht, Hn. }
    congruence.
Qed.

Lemma test_ids_exception (df : Frame.frame) (exn : string) :
  Frame.test_ids df = Raised exn → exn = "TypeError" ∨ exn = "KeyError".
Proof.
  rewrite test_ids_spec.
  repeat match goal with
         | |- context [if ?b then _ else _] => destruct b
         end; intros [= <-]; eauto.
Qed.

(** The lines printed before line 40. *)
Lemma analyze_at_line_40 (path : string) (df : Frame.frame) :
  ¬ Frame.try_failed (Frame.Read df) →
  match Frame.test_ids df with
  | Raised exn =>
      Frame.analyze_flaky_tests path (Frame.Read df) =
        ([ Loaded (length (Frame.body df)) path;
           ColumnsFound (Frame.labels df);
           UniqueEnvironments
             (sorted (unique (Frame.environment <$> Frame.body df)));
           UniqueProjects
             (length (unique (Frame.project <$> Frame.body df))) ],
         Raised exn)
  | Done ids =>
      ∃ n, (Frame.analyze_flaky_tests path (Frame.Read df)).1 !! 4
             = Some (TotalUnique n)
  end.
Proof.
  cbn [Frame.try_failed]. intros Hok. unfold Frame.analyze_flaky_tests.
  destruct (Frame.has_column df "environment"); [| by destruct Hok; left].
  destruct (Frame.has_column df "project"); [| by destruct Hok; right].
  cbn [negb]. destruct (Frame.test_ids df); [| done]. cbv zeta.
  destruct (flaky_loop _ _); [by eexists |].
  destruct (negb (Frame.has_column df "outcome")); by eexists.
Qed.

(** X12. In every line of the returned frame the project and the
    test_name are present: they are the text cells of a row of the
    input whose test identity is flaky.  The outcome is the outcome cell
    of that row as read, so it is missing in the line when it is empty
    in the file. *)
Theorem result_cells_of_row (path : string) (df : Frame.frame)
    (log : list message) (vs : list Frame.verdict) (v : Frame.verdict) :
  Frame.analyze_flaky_tests path (Frame.Read df) = (log, Done vs) →
  v ∈ vs →
  ∃ r p t,
    r ∈ Frame.body df ∧
    Frame.project r = Frame.Text p ∧
    Frame.test_name r = Frame.Text t ∧
    Frame.v_project v = Frame.Text p ∧
    Frame.v_test_name v = Frame.Text t ∧
    Frame.v_outcome v = Frame.outcome r ∧
    (p +:+ "::") +:+ t ∈ f_test_id <$> Frame.flaky_tests df.
Proof.
  intros H Hv.
  apply (elem_of_frame_result path df log vs v H) in Hv
    as (_ & f & r & Hf & Hr & Hk & ->).
  pose proof Hk as (p & t & Hp & Ht & Hid)%row_key_Some.
  exists r, p, t. cbn. rewrite <- Hid. repeat split; try done.
  apply list_elem_of_fmap. eauto.
Qed.

Lemma result_cells_of_row_witness :
  ∃ r p t,
    r ∈ Frame.body Frame.missing_outcome ∧
    Frame.project r = Frame.Text p ∧
    Frame.test_name r = Frame.Text t ∧
    Frame.v_project
      (Frame.Verdict (Frame.Text "p") (Frame.Text "t1") Frame.Missing
         ["linux"] ["mac"] 1 1) = Frame.Text p ∧
    Frame.v_test_name
      (Frame.Verdict (Frame.Text "p") (Frame.Text "t1") Frame.Missing
         ["linux"] ["mac"] 1 1) = Frame.Text t ∧
    Frame.v_outcome
      (Frame.Verdict (Frame.Text "p") (Frame.Text "t1") Frame.Missing
         ["linux"] ["mac"] 1 1) = Frame.outcome r ∧
    (p +:+ "::") +:+ t ∈ f_test_id <$> Frame.flaky_tests Frame.missing_outcome.
Proof.
  apply (result_cells_of_row "final.csv" Frame.missing_outcome
           (Frame.analyze_flaky_tests "final.csv"
              (Frame.Read Frame.missing_outcome)).1
           [ Frame.Verdict (Frame.Text "p") (Frame.Text "t1") Frame.Missing
               ["linux"] ["mac"] 1 1 ]).
  - vm_compute. reflexivity.
  - left.
Defined.



(** X22. An exception of line 40 is not caught.  On a frame that has
    passed the [try] block, the run ends at line 40 with a [TypeError]
    or a [KeyError], the four lines of the load summary printed and
    nothing returned, exactly when the project column holds a number,
    or holds no text at all in a frame with rows, or the test_name
    column is absent, or some row has a project and a numeric
    test_name. *)
Theorem line_40_failure_uncaught (path : string) (df : Frame.frame) :
  ¬ Frame.try_failed (Frame.Read df) →
  (∃ exn,
     (exn = "TypeError" ∨ exn = "KeyError") ∧
     Frame.analyze_flaky_tests path (Frame.Read df) =
       ([ Loaded (length (Frame.body df)) path;
          ColumnsFound (Frame.labels df);
          UniqueEnvironments
            (sorted (unique (Frame.environment <$> Frame.body df)));
          UniqueProjects
            (length (unique (Frame.project <$> Frame.body df))) ],
        Raised exn)) ↔
  (∃ r, r ∈ Frame.body df ∧ Frame.is_number (Frame.project r) = true) ∨
  (Frame.body df ≠ [] ∧
   ∀ r, r ∈ Frame.body df → Frame.is_text (Frame.project r) = false) ∨
  Frame.has_column df "test_name" = false ∨
  (∃ r, r ∈ Frame.body df ∧ Frame.is_text (Frame.project r) = true ∧
        Frame.is_number (Frame.test_name r) = true).
Proof.
  intros Hok. rewrite <- test_ids_Raised_iff.
  pose proof (analyze_at_line_40 path df Hok) as Hrun.
  destruct (Frame.test_ids df) as [ids|exn] eqn:E.
  - destruct Hrun as [n Hn]. split; [| by intros [? ?]].
    intros (exn & _ & Heq). by rewrite Heq in Hn.
  - split; [eauto |]. intros _. exists exn. split; [| done].
    by apply (test_ids_exception df).
Qed.

Lemma line_40_failure_uncaught_witness :
  ∃ exn,
    (exn = "TypeError" ∨ exn = "KeyError") ∧
    Frame.analyze_flaky_tests "final.csv" (Frame.Read Frame.numeric_project) =
      ([ Loaded (length (Frame.body Frame.numeric_project)) "final.csv";
         ColumnsFound (Frame.labels Frame.numeric_project);
         UniqueEnvironments
           (sorted (unique (Frame.environment
                              <$> Frame.body Frame.numeric_project)));
         UniqueProjects
           (length (unique (Frame.project
                              <$> Frame.body Frame.numeric_project))) ],
       Raised exn).
Proof.
  apply (proj2 (line_40_failure_uncaught "final.csv" Frame.numeric_project
                  ltac:(vm_compute; intros [H|H]; discriminate H))).
  left. exists (Frame.Row (Frame.Number 123) (Frame.Text "t1")
                  (Frame.Text "failed") Frame.Missing "linux").
  split; [left | reflexivity].
Defined.



End FrameProperties.
